(** * HonorBot: the honor ledger, the rank resolver and the role reflection

    A shallow embedding of [src/bot.py].

    - Python integers are [Z].  The values that reach the database (Discord
      snowflake ids, honor deltas, clamped balances) are taken inside SQLite's
      64-bit INTEGER range, as every caller in the bot passes them.
    - Text is [string]; a character is a Rocq [ascii].
    - The SQLite file is the record [Db]: one finite map per table with a
      PRIMARY KEY on [user_id], one list in insertion order per log table.
    - Every repository method opens its own connection
      ([with sqlite3.connect(...) as conn]) and commits inside it.  A
      connection may fail with an I/O error; the outcome of the upcoming
      connections is part of the world, so that a method is a computation of
      the state-and-exception monad [Store].
    - Time is part of the world too.  SQLite's [CURRENT_TIMESTAMP] is the UTC
      time in whole seconds; Python's [datetime.datetime.now()] and
      [datetime.date.today()] are the naive local time. *)

From Stdlib Require Import ZArith QArith Lia Ascii String DecimalString.
From stdpp Require Import base numbers option list sorting gmap strings.

#[local] Open Scope Z_scope.

(** ** Constants (bot.py, lines 26-28) *)

Definition HONOR_MIN : Z := -144000.
Definition HONOR_MAX : Z := 144000.
Definition BLESS_AMOUNT : Z := 100000.

(** ** Tables (init_db, lines 50-90) *)

Record HonorLogRow := mkHonorLogRow {
  hl_id : Z;                 (* INTEGER PRIMARY KEY AUTOINCREMENT *)
  hl_user_id : Z;
  hl_delta : Z;
  hl_reason : string;
  hl_by_user : option Z;     (* None is SQL NULL / Python None *)
  hl_ts : Z                  (* DEFAULT CURRENT_TIMESTAMP, UTC seconds *)
}.

Record LootLogRow := mkLootLogRow {
  ll_id : Z;
  ll_user_id : Z;
  ll_ts : Z;
  ll_reward : Z
}.

Record Db := mkDb {
  user_honor : gmap Z Z;         (* user_id PRIMARY KEY -> honor *)
  honor_log : list HonorLogRow;  (* oldest row first *)
  daily_bonus : gmap Z Z;        (* user_id PRIMARY KEY -> last_claimed (day number) *)
  loot_log : list LootLogRow     (* oldest row first *)
}.

(** The database right after [init_db] ran on a fresh file. *)
Definition init_db : Db := mkDb ∅ [] ∅ [].

(** ** The world a repository method runs in *)

Record World := mkWorld {
  db : Db;
  faults : list bool;  (* outcome of the upcoming connections, [true] = I/O error;
                          past the end of the list every connection succeeds *)
  utc_us : Z;          (* the instant, in microseconds of UTC *)
  tz_offset : Z        (* local time minus UTC, in seconds *)
}.

Inductive exn := StoreUnavailable | IndexError | ZeroDivisionError.

Inductive result (A : Type) :=
| Ok (a : A)
| Raise (e : exn).
Arguments Ok {A} a.
Arguments Raise {A} e.

Definition Store (A : Type) : Type := World → result A * World.

Definition ret {A} (a : A) : Store A := λ w, (Ok a, w).

Definition bind {A B} (m : Store A) (k : A → Store B) : Store B :=
  λ w, match m w with
       | (Ok a, w') => k a w'
       | (Raise e, w') => (Raise e, w')
       end.

Notation "x ⇐ m ;; k" := (bind m (λ x, k))
  (at level 100, m at next level, right associativity).
Notation "m ;;; k" := (bind m (λ _, k))
  (at level 100, right associativity).

(** [with sqlite3.connect(db_path) as conn: ...; conn.commit()]: the
    statements of the block run as one transaction.  On an I/O error nothing
    of the block is committed and the exception leaves the method. *)
Definition connect {A} (txn : Db → A * Db) : Store A :=
  λ w, match faults w with
       | true :: rest =>
           (Raise StoreUnavailable, mkWorld (db w) rest (utc_us w) (tz_offset w))
       | _ =>
           let '(a, d) := txn (db w) in
           (Ok a, mkWorld d (tail (faults w)) (utc_us w) (tz_offset w))
       end.

(** SQLite's [CURRENT_TIMESTAMP]: UTC, whole seconds. *)
Definition CURRENT_TIMESTAMP : Store Z := λ w, (Ok (utc_us w `div` 1000000), w).

(** [datetime.datetime.now()]: naive local time, in microseconds. *)
Definition datetime_now : Store Z :=
  λ w, (Ok (utc_us w + tz_offset w * 1000000), w).

(** [datetime.date.today()]: the local calendar day, as a day number. *)
Definition date_today : Store Z :=
  λ w, (Ok ((utc_us w + tz_offset w * 1000000) `div` 86400000000), w).

(** ** HonorRepository (lines 44-186) *)

Definition get_user_honor (user_id : Z) : Store Z :=
  connect (λ d, (default 0 (user_honor d !! user_id), d)).

Definition set_user_honor (user_id value : Z) : Store unit :=
  let clamped := Z.max HONOR_MIN (Z.min HONOR_MAX value) in
  connect (λ d, (tt, mkDb (<[user_id := clamped]> (user_honor d))
                          (honor_log d) (daily_bonus d) (loot_log d))).

Definition log_honor_change (user_id delta : Z) (reason : string) (by_ : option Z)
  : Store unit :=
  ts ⇐ CURRENT_TIMESTAMP ;;
  connect (λ d,
    let row := mkHonorLogRow (Z.of_nat (List.length (honor_log d)) + 1)
                             user_id delta reason by_ ts in
    (tt, mkDb (user_honor d) (honor_log d ++ [row]) (daily_bonus d) (loot_log d))).

Definition add_user_honor (user_id delta : Z) (reason : string) (by_ : option Z)
  : Store unit :=
  current ⇐ get_user_honor user_id ;;
  set_user_honor user_id (current + delta) ;;;
  log_honor_change user_id delta reason by_.

(** *** SQLite's LIKE

    [get_achievement_count] filters with [reason LIKE ?].  SQLite's built-in
    LIKE (no ESCAPE clause, [case_sensitive_like] at its default, which the
    bot never changes): [%] matches any run of characters, [_] matches one
    character, any other character matches itself or its other ASCII letter
    case. *)

Definition sqlite_tolower (c : ascii) : ascii :=
  let n := N_of_ascii c in
  if ((65 <=? n) && (n <=? 90))%N then ascii_of_N (n + 32) else c.

Fixpoint like (pattern text : string) : bool :=
  match pattern with
  | EmptyString =>
      match text with EmptyString => true | String _ _ => false end
  | String c pattern' =>
      if Ascii.eqb c "%" then
        (fix rest_matches (t : string) : bool :=
           like pattern' t ||
           match t with
           | EmptyString => false
           | String _ t' => rest_matches t'
           end) text
      else
        match text with
        | EmptyString => false
        | String d text' =>
            (Ascii.eqb c "_" || Ascii.eqb (sqlite_tolower c) (sqlite_tolower d))
            && like pattern' text'
        end
  end.

Definition get_achievement_count (user_id : Z) (reason : string) : Store Z :=
  let pattern := ("%" ++ reason ++ "%")%string in
  connect (λ d,
    (Z.of_nat (List.length
       (List.filter (λ row, (hl_user_id row =? user_id) && like pattern (hl_reason row))
                    (honor_log d))), d)).

Definition can_claim_daily (user_id : Z) : Store bool :=
  row ⇐ connect (λ d, (daily_bonus d !! user_id, d)) ;;
  today ⇐ date_today ;;
  ret (match row with
       | None => true
       | Some last_claimed => negb (last_claimed =? today)
       end).

Definition claim_daily (user_id : Z) : Store unit :=
  today ⇐ date_today ;;
  connect (λ d, (tt, mkDb (user_honor d) (honor_log d)
                          (<[user_id := today]> (daily_bonus d)) (loot_log d))).

(** [SELECT ts FROM loot_log WHERE user_id = ? ORDER BY ts DESC LIMIT 1]:
    the greatest [ts] among the user's rows, if there is a row. *)
Definition latest_loot_ts (user_id : Z) (rows : list LootLogRow) : option Z :=
  foldr (λ row acc,
           if ll_user_id row =? user_id
           then Some (match acc with
                      | Some t => Z.max (ll_ts row) t
                      | None => ll_ts row
                      end)
           else acc)
        None rows.

(** [fromisoformat(row[0])] reads the stored UTC second as a naive datetime;
    [(now - last).total_seconds()] is their difference, an exact count of
    microseconds, so that the comparison with 86400 is one of integers. *)
Definition can_open_lootbox (user_id : Z) : Store bool :=
  row ⇐ connect (λ d, (latest_loot_ts user_id (loot_log d), d)) ;;
  match row with
  | None => ret true
  | Some ts =>
      let last := ts * 1000000 in
      now ⇐ datetime_now ;;
      ret (86400 * 1000000 <=? now - last)
  end.

Definition log_lootbox (user_id reward : Z) : Store unit :=
  ts ⇐ CURRENT_TIMESTAMP ;;
  connect (λ d,
    let row := mkLootLogRow (Z.of_nat (List.length (loot_log d)) + 1)
                            user_id ts reward in
    (tt, mkDb (user_honor d) (honor_log d) (daily_bonus d) (loot_log d ++ [row]))).

(** ** Event and command handlers: what they do to the repository *)

(** [update_member_title] (lines 529-569) reads the balance at line 531 and
    once more through [check_rewards] (line 516); it never writes to the
    database.  (When a platform call in between raises, the second read is
    not reached; a read changes nothing but the position in [faults], over
    which the statements below quantify.)  What it does to the member's
    roles is modelled further down. *)
Definition update_member_title_reads (user_id : Z) : Store unit :=
  get_user_honor user_id ;;;
  get_user_honor user_id ;;;
  ret tt.

(** [on_message] (lines 290-300); [insult] is what [is_insult] returned, and
    [if insult:] holds for a non-empty string. *)
Definition on_message (author : Z) (author_bot : bool) (insult : option string)
  : Store unit :=
  if author_bot then ret tt else
  match insult with
  | Some (String c s) =>
      add_user_honor author (-100000) ("Beleidigung: " ++ String c s)%string (Some author) ;;;
      update_member_title_reads author
  | _ => ret tt
  end.

Definition bless (user : Z) (user_bot : bool) : Store unit :=
  if user_bot then ret tt else
  add_user_honor user BLESS_AMOUNT "" None ;;;
  update_member_title_reads user.

Definition thanks (user : Z) (user_bot : bool) : Store unit :=
  if user_bot then ret tt else
  add_user_honor user 20 "" None ;;;
  update_member_title_reads user.

Definition helped (user : Z) (user_bot : bool) : Store unit :=
  if user_bot then ret tt else
  add_user_honor user 30 "" None ;;;
  update_member_title_reads user.

(** [daily] (lines 440-452); [bonus] is the draw of [random.randint(100, 500)]. *)
Definition daily (user_id bonus : Z) : Store unit :=
  can ⇐ can_claim_daily user_id ;;
  if negb can then ret tt else
  add_user_honor user_id bonus "Daily Bonus" (Some user_id) ;;;
  claim_daily user_id ;;;
  update_member_title_reads user_id.

(** [lootbox] (lines 455-467); [reward] is the draw of [random.choices]. *)
Definition lootbox (user_id reward : Z) : Store unit :=
  can ⇐ can_open_lootbox user_id ;;
  if negb can then ret tt else
  add_user_honor user_id reward "Lootbox" (Some user_id) ;;;
  log_lootbox user_id reward ;;;
  update_member_title_reads user_id.

(** What can happen to the bot: a handler runs, the repository is called
    directly, or the environment moves on (time passes, the time zone
    changes, storage starts or stops failing). *)
Inductive Event :=
| EvMessage (author : Z) (author_bot : bool) (insult : option string)
| EvBless (user : Z) (user_bot : bool)
| EvThanks (user : Z) (user_bot : bool)
| EvHelped (user : Z) (user_bot : bool)
| EvDaily (user_id bonus : Z)
| EvLootbox (user_id reward : Z)
| EvAddUserHonor (user_id delta : Z) (reason : string) (by_ : option Z)
| EvSetUserHonor (user_id value : Z)
| EvEnvironment (fs : list bool) (utc tz : Z).

Definition handle (ev : Event) : Store unit :=
  match ev with
  | EvMessage author author_bot insult => on_message author author_bot insult
  | EvBless user user_bot => bless user user_bot
  | EvThanks user user_bot => thanks user user_bot
  | EvHelped user user_bot => helped user user_bot
  | EvDaily user_id bonus => daily user_id bonus
  | EvLootbox user_id reward => lootbox user_id reward
  | EvAddUserHonor user_id delta reason by_ => add_user_honor user_id delta reason by_
  | EvSetUserHonor user_id value => set_user_honor user_id value
  | EvEnvironment fs utc tz => λ w, (Ok tt, mkWorld (db w) fs utc tz)
  end.

(** An exception that leaves a handler is logged by the event loop, which
    goes on with the next event: the world is the one the handler left. *)
Fixpoint run (evs : list Event) (w : World) : World :=
  match evs with
  | [] => w
  | ev :: evs' => run evs' (handle ev w).2
  end.

(** ** Python helpers *)

(** [needle in haystack] on strings. *)
Fixpoint contains (needle haystack : string) : bool :=
  String.prefix needle haystack ||
  match haystack with
  | EmptyString => false
  | String _ rest => contains needle rest
  end.

(** [str.lower()], on ASCII text. *)
Fixpoint lower (s : string) : string :=
  match s with
  | EmptyString => EmptyString
  | String c s' => String (sqlite_tolower c) (lower s')
  end.

(** [sorted(l, key=key, reverse=reverse)].  Python's sort is stable, also
    with [reverse=True]; the outcome of a stable sort does not depend on the
    algorithm, and insertion from the right computes it. *)
Fixpoint insert_by {A} (before : A → A → bool) (x : A) (l : list A) : list A :=
  match l with
  | [] => [x]
  | y :: l' => if before x y then x :: y :: l' else y :: insert_by before x l'
  end.

Definition sorted {A} (key : A → Z) (reverse : bool) (l : list A) : list A :=
  foldr (insert_by (λ x y, if reverse then key y <=? key x else key x <=? key y)) [] l.

(** [a / b] on integers: true division, here with an exact quotient.  The
    float Python computes is the quotient rounded to nearest; rounding is
    monotone and leaves 0 and 1 alone, so it commutes with the clamp to
    [0, 1] below. *)
Definition true_div (a b : Z) : result Q :=
  if b =? 0 then Raise ZeroDivisionError else Ok (inject_Z a / inject_Z b)%Q.

(** [max(a, b)] returns [a] unless [b > a]; [min(a, b)] returns [a] unless
    [b < a]. *)
Definition py_max (a b : Q) : Q := if Qle_bool b a then a else b.
Definition py_min (a b : Q) : Q := if Qle_bool a b then a else b.

(** ** Ranks and progress (lines 219-242) *)

(** An entry [(threshold, name, emoji, color)] of [RANKS]. *)
Record RankTier := mkRankTier {
  threshold : Z;
  name : string;
  emoji : string;
  color : Z
}.

(** What [get_progress_bar] puts into its text: the fraction, the two
    numbers in the parentheses and the next rank.  The drawing of the bar
    and the number formatting are left out. *)
Record Progress := mkProgress {
  percent : Q;
  pos : Z;
  span : Z;
  next_rank : RankTier
}.

Section Ranks.

(** [RANKS] is imported from [roles.py], which is not part of the sources
    at hand: the table is a parameter. *)
Variable RANKS : list RankTier.

Definition get_rank (honor : Z) : result (string * string * Z) :=
  match List.find (λ r, threshold r <=? honor) (sorted threshold true RANKS) with
  | Some r => Ok (name r, emoji r, color r)
  | None =>
      match RANKS with
      | r0 :: _ => Ok (name r0, emoji r0, color r0)
      | [] => Raise IndexError
      end
  end.

(** The loop of lines 231-235, from the current [prev] and [next_rank]. *)
Fixpoint progress_scan (honor : Z) (rs : list RankTier) (prev next_ : RankTier)
  : RankTier * RankTier :=
  match rs with
  | [] => (prev, next_)
  | r :: rs' =>
      if honor <? threshold r then (prev, r)
      else progress_scan honor rs' r next_
  end.

Definition get_progress_bar (honor : Z) : result Progress :=
  let sorted_ranks := sorted threshold false RANKS in
  match head sorted_ranks, last sorted_ranks with
  | Some first, Some final =>
      let '(prev, next_) := progress_scan honor sorted_ranks first final in
      let span := threshold next_ - threshold prev in
      let pos := honor - threshold prev in
      match (if span =? 0 then Ok 0%Q
             else match true_div pos span with
                  | Ok q => Ok (py_min (py_max q 0) 1)
                  | Raise e => Raise e
                  end) with
      | Ok percent => Ok (mkProgress percent pos span next_)
      | Raise e => Raise e
      end
  | _, _ => Raise IndexError
  end.

End Ranks.

(** ** Roles (lines 502-569) *)

(** A [discord.Role], as far as the bot looks at it.  Two roles are equal
    when their ids are; the default role of a guild has the guild's id. *)
Record Role := mkRole {
  role_id : Z;
  role_guild_id : Z;
  role_name : string;
  role_administrator : bool   (* role.permissions.administrator *)
}.

Definition is_default (role : Role) : bool := role_id role =? role_guild_id role.

Definition role_eqb (a b : Role) : bool := role_id a =? role_id b.

(** [role in roles] *)
Definition role_in (role : Role) (roles : list Role) : bool :=
  existsb (role_eqb role) roles.

(** [discord.utils.get(roles, name=role_name)]: the first role of that name. *)
Definition get (roles : list Role) (role_name_ : string) : option Role :=
  List.find (λ r, String.eqb (role_name r) role_name_) roles.

(** A call to the platform. *)
Inductive Request :=
| AddRoles (role : Role)      (* member.add_roles(role) *)
| RemoveRoles (role : Role).  (* member.remove_roles(role) *)

(** What a call that goes through does to the roles the member holds. *)
Definition apply_request (held : list Role) (rq : Request) : list Role :=
  match rq with
  | AddRoles role => if role_in role held then held else held ++ [role]
  | RemoveRoles role => List.filter (λ r, negb (role_eqb role r)) held
  end.

Definition apply_requests (rqs : list Request) (held : list Role) : list Role :=
  foldl apply_request held rqs.

Definition REWARD_ROLES : list (Z * string) :=
  [(10000, "VIP"); (50000, "Elite"); (100000, "Star")]%string.

(** The body of the loop of [check_rewards] (lines 520-524) for one entry of
    [REWARD_ROLES]: the call it makes, if any. *)
Definition reward_step (honor : Z) (guild_roles member_roles : list Role)
    (entry : Z * string) : list Request :=
  let '(threshold_, role_name_) := entry in
  match get guild_roles role_name_ with
  | Some role =>
      if (threshold_ <=? honor) && negb (role_in role member_roles)
      then [AddRoles role]
      else if (honor <? threshold_) && role_in role member_roles
      then [RemoveRoles role]
      else []
  | None => []
  end.

(** [check_rewards] (lines 515-524), given the balance it read: the calls it
    makes, in order.  Each entry of [REWARD_ROLES] is tested against the
    roles the member holds. *)
Definition check_rewards (honor : Z) (guild_roles member_roles : list Role)
  : list Request :=
  flat_map (reward_step honor guild_roles member_roles) REWARD_ROLES.

(** The test of line 554: the roles [update_member_title] leaves alone. *)
Definition spared (role : Role) : bool :=
  is_default role || role_administrator role
  || contains "mod" (lower (role_name role))
  || contains "admin" (lower (role_name role)).

(** The loop of lines 553-559 over the snapshot [list(member.roles)]:
    [forbidden role] tells whether the platform answers
    [member.remove_roles(role)] with [discord.Forbidden], which the loop
    logs and passes over.  It yields the calls made so far and the roles
    the member holds. *)
Fixpoint remove_old_roles (forbidden : Role → bool) (snapshot : list Role)
    (st : list Request * list Role) : list Request * list Role :=
  match snapshot with
  | [] => st
  | role :: snapshot' =>
      if spared role then remove_old_roles forbidden snapshot' st
      else
        let '(calls, held) := st in
        remove_old_roles forbidden snapshot'
          (calls ++ [RemoveRoles role],
           if forbidden role then held else apply_request held (RemoveRoles role))
  end.

(** ** Vocabulary of the statements *)

(** The clamp of [set_user_honor], for the statements below. *)
Definition clamp (value : Z) : Z := Z.max HONOR_MIN (Z.min HONOR_MAX value).

(** The balance [get_user_honor] reports for a database. *)
Definition balance (d : Db) (user_id : Z) : Z := default 0 (user_honor d !! user_id).

(** The row [log_honor_change] appends. *)
Definition ledger_row (w : World) (user_id delta : Z) (reason : string)
    (by_ : option Z) : HonorLogRow :=
  mkHonorLogRow (Z.of_nat (List.length (honor_log (db w))) + 1)
                user_id delta reason by_ (utc_us w `div` 1000000).

(** The balance invariant: every stored balance lies in
    [[HONOR_MIN, HONOR_MAX]]. *)
Definition balances_in_range (d : Db) : Prop :=
  ∀ user_id b, user_honor d !! user_id = Some b → HONOR_MIN ≤ b ≤ HONOR_MAX.

(** A computation keeps the invariant whatever its outcome. *)
Definition preserves {A} (m : Store A) : Prop :=
  ∀ w, balances_in_range (db w) → balances_in_range (db (m w).2).

(** A query without the wildcards of LIKE. *)
Fixpoint no_wildcard (s : string) : bool :=
  match s with
  | EmptyString => true
  | String c s' => negb (Ascii.eqb c "%") && negb (Ascii.eqb c "_") && no_wildcard s'
  end.

(** Follows the spec's words: the user's entries whose reason contains the
    query as a case-sensitive substring. *)
Definition count_reason_spec (d : Db) (user_id : Z) (query : string) : Z :=
  Z.of_nat (List.length
    (List.filter (λ row, (hl_user_id row =? user_id) && contains query (hl_reason row))
                 (honor_log d))).

(** The order [sorted key reverse] establishes, and the test it inserts by. *)
Definition in_order {A} (key : A → Z) (reverse : bool) (a b : A) : Prop :=
  if reverse then key b ≤ key a else key a ≤ key b.

Definition before {A} (key : A → Z) (reverse : bool) (x y : A) : bool :=
  if reverse then key y <=? key x else key x <=? key y.

(** The table as the data model has it: ascending, no threshold twice. *)
Definition ascending (ranks : list RankTier) : Prop :=
  StronglySorted (λ a b, threshold a < threshold b) ranks.

(** The tier of a balance by the data model: the tier with the greatest
    threshold at or below the balance, and the tier with the lowest
    threshold when the balance is below every threshold. *)
Definition tier_of (ranks : list RankTier) (honor : Z) (r : RankTier) : Prop :=
  In r ranks
  ∧ ((threshold r ≤ honor
      ∧ ∀ r', In r' ranks → threshold r' ≤ honor → threshold r' ≤ threshold r)
     ∨ ((∀ r', In r' ranks → honor < threshold r')
        ∧ ∀ r', In r' ranks → threshold r ≤ threshold r')).

(** The table of the spec's scenario. *)
Definition scenario_ranks : list RankTier :=
  [mkRankTier 0 "Peasant" "o" 9807270;
   mkRankTier 1000 "Knight" "+" 3447003;
   mkRankTier 5000 "Lord" "*" 15844367]%string.

Definition role_of (rq : Request) : Role :=
  match rq with AddRoles role | RemoveRoles role => role end.

(** ** Vocabulary of the further statements *)

(** A computation moves the database along [R], whatever its outcome. *)
Definition steps (R : Db → Db → Prop) {A} (m : Store A) : Prop :=
  ∀ w, R (db w) (db (m w).2).

(** The user whose stored balance an event may write. *)
Definition event_user (ev : Event) : option Z :=
  match ev with
  | EvMessage author false (Some (String _ _)) => Some author
  | EvBless user false | EvThanks user false | EvHelped user false => Some user
  | EvDaily user_id _ | EvLootbox user_id _ => Some user_id
  | EvAddUserHonor user_id _ _ _ | EvSetUserHonor user_id _ => Some user_id
  | _ => None
  end.

(** The arguments of the call of [add_user_honor] an event may lead to. *)
Definition event_call (ev : Event) : option (Z * Z * string * option Z) :=
  match ev with
  | EvMessage author false (Some (String c s)) =>
      Some (author, -100000, ("Beleidigung: " ++ String c s)%string, Some author)
  | EvBless user false => Some (user, BLESS_AMOUNT, ""%string, None)
  | EvThanks user false => Some (user, 20, ""%string, None)
  | EvHelped user false => Some (user, 30, ""%string, None)
  | EvDaily user_id bonus => Some (user_id, bonus, "Daily Bonus"%string, Some user_id)
  | EvLootbox user_id reward => Some (user_id, reward, "Lootbox"%string, Some user_id)
  | EvAddUserHonor user_id delta reason by_ => Some (user_id, delta, reason, by_)
  | _ => None
  end.

(** An event that writes balances of users in [touch] only and appends
    ledger entries in [entry] only. *)
Definition allowed (touch : Z → Prop) (entry : Z → Z → string → option Z → Prop)
    (ev : Event) : Prop :=
  (∀ u, event_user ev = Some u → touch u)
  ∧ (∀ u delta reason by_, event_call ev = Some (u, delta, reason, by_) →
                           entry u delta reason by_).

(** The local calendar day of a world, as [date_today] reports it. *)
Definition local_day (utc tz : Z) : Z := (utc + tz * 1000000) `div` 86400000000.

(** The rows of a log carry the ids 1, 2, 3, ... in order. *)
Definition ids_in_sequence {A} (id : A → Z) (rows : list A) : Prop :=
  ∀ (i : nat) row, rows !! i = Some row → id row = Z.of_nat i + 1.

(** ** The queries of the repository (lines 128-151) and the achievements
    (lines 245-255) *)

(** [sep.join(parts)] *)
Fixpoint join (sep : string) (parts : list string) : string :=
  match parts with
  | [] => EmptyString
  | [p] => p
  | p :: rest => (p ++ sep ++ join sep rest)%string
  end.

(** [LIMIT n]: the first [n] rows; a negative [n] sets no bound. *)
Definition limit {A} (n : Z) (rows : list A) : list A :=
  if n <? 0 then rows else take (Z.to_nat n) rows.

Section Queries.

(** [ORDER BY key] ([desc = true]: [DESC]).  SQL leaves the order of rows
    with equal keys to the engine; how SQLite orders them is a parameter. *)
Variable order_by : ∀ A : Type, (A → Z) → bool → list A → list A.

(** [is_top1]: [row and row[0] == user_id] is [None] on an empty table. *)
Definition is_top1 (user_id : Z) : Store (option bool) :=
  connect (λ d,
    (match head (limit 1 (order_by _ snd true (map_to_list (user_honor d)))) with
     | None => None
     | Some row => Some (row.1 =? user_id)
     end, d)).

Definition get_honor_log (user_id limit_ : Z) : Store (list (Z * string * Z)) :=
  connect (λ d,
    ((λ row, (hl_delta row, hl_reason row, hl_ts row)) <$>
       limit limit_ (order_by _ hl_ts true
                       (List.filter (λ row, hl_user_id row =? user_id) (honor_log d))),
     d)).

Definition get_honor_log_admin (user_id limit_ : Z)
  : Store (list (Z * string * option Z * Z)) :=
  connect (λ d,
    ((λ row, (hl_delta row, hl_reason row, hl_by_user row, hl_ts row)) <$>
       limit limit_ (order_by _ hl_ts true
                       (List.filter (λ row, hl_user_id row =? user_id) (honor_log d))),
     d)).

Definition get_leaderboard (top : Z) : Store (list (Z * Z) * list (Z * Z)) :=
  connect (λ d,
    let top_users := limit top (order_by _ snd true (map_to_list (user_honor d))) in
    let flop_users := limit top (order_by _ snd false (map_to_list (user_honor d))) in
    ((top_users, flop_users), d)).

(** [ACHIEVEMENTS]: key, icon, description and condition. *)
Definition ACHIEVEMENTS : list (string * string * string * (Z → Store bool)) :=
  [("helper", "🤝", "100x geholfen",
    λ uid, c ⇐ get_achievement_count uid "helped" ;; ret (100 <=? c)%Z);
   ("blesser", "🙏", "50x gesegnet",
    λ uid, c ⇐ get_achievement_count uid "bless" ;; ret (50 <=? c)%Z);
   ("no_insult", "🧘", "Nie beleidigt",
    λ uid, c ⇐ get_achievement_count uid "insult" ;; ret (c =? 0)%Z);
   ("top1", "👑", "Platz 1 Leaderboard",
    λ uid, top ⇐ is_top1 uid ;; ret (default false top))]%string.

(** The list comprehension of [get_achievements]: the conditions are
    evaluated in the order of the table. *)
Fixpoint unlocked_of (table : list (string * string * string * (Z → Store bool)))
    (user_id : Z) : Store (list string) :=
  match table with
  | [] => ret []
  | (_, icon, desc, cond) :: table' =>
      holds ⇐ cond user_id ;;
      rest ⇐ unlocked_of table' user_id ;;
      ret (if holds then (icon ++ " " ++ desc)%string :: rest else rest)
  end.

Definition get_achievements (user_id : Z) : Store string :=
  unlocked ⇐ unlocked_of ACHIEVEMENTS user_id ;;
  ret (match unlocked with
       | [] => "Keine Achievements."%string
       | _ => join ", " unlocked
       end).

End Queries.

(** A run of handlers only: nothing calls [add_user_honor] directly. *)
Definition is_command (ev : Event) : bool :=
  match ev with
  | EvAddUserHonor _ _ _ _ => false
  | _ => true
  end.

(** The words [is_insult] reported in messages of users that are not bots. *)
Definition flagged_words (evs : list Event) : list string :=
  omap (λ ev, match ev with
              | EvMessage _ false (Some (String c s)) => Some (String c s)
              | _ => None
              end) evs.

(** What is asked of an ordering of rows: it rearranges the rows and leaves
    them in the order of the key. *)
Definition orders (order_by : ∀ A : Type, (A → Z) → bool → list A → list A) : Prop :=
  ∀ A (key : A → Z) (desc : bool) (rows : list A),
    order_by A key desc rows ≡ₚ rows
    ∧ StronglySorted (in_order key desc) (order_by A key desc rows).

(** The reasons the handlers write into the ledger. *)
Definition handler_reason (words : list string) (reason : string) : Prop :=
  reason = ""%string ∨ reason = "Daily Bonus"%string ∨ reason = "Lootbox"%string
  ∨ ∃ word, In word words ∧ reason = ("Beleidigung: " ++ word)%string.

(** ** More Python text helpers *)

(** The characters [str.split()] and [str.strip()] take for whitespace, as
    far as they are ASCII. *)
Definition is_space (c : ascii) : bool :=
  let n := N_of_ascii c in
  (((9 <=? n) && (n <=? 13)) || ((28 <=? n) && (n <=? 32)))%N.


(** [s.split()]: the runs of characters between whitespace. *)
Fixpoint split_whitespace (s : string) : list string :=
  match s with
  | EmptyString => []
  | String c s' =>
      if is_space c then split_whitespace s'
      else match s' with
           | EmptyString => [String c EmptyString]
           | String d _ =>
               if is_space d then String c EmptyString :: split_whitespace s'
               else match split_whitespace s' with
                    | word :: words => String c word :: words
                    | [] => [String c EmptyString]
                    end
           end
  end.












(** ** The nickname (update_member_title, lines 531-544) *)

Section Nickname.
Variable RANKS : list RankTier.

(** The loop of lines 532-537: the name and the emoji of the rank. *)
Definition member_rank (honor : Z) : result (string * string) :=
  match List.find (λ r, threshold r <=? honor) (sorted threshold true RANKS) with
  | Some r => Ok (name r, emoji r)
  | None =>
      match RANKS with
      | r0 :: _ => Ok (name r0, emoji r0)
      | [] => Raise IndexError
      end
  end.



End Nickname.

(** ** add_badword (lines 484-500), on the lines of the file *)




(** ** is_insult (lines 191-210) *)

Section Insults.

(** [local_insults] comes from [badwords.py], which is not among the
    sources.  [cleaned message] stands for
    [re.sub(r'[^\wäöüß ]', '', message.lower())] and [normalized insult] for
    [insult.lower().strip()]: what they do to text outside ASCII is not
    modelled. *)
Variable local_insults : list string.
Variables cleaned normalized : string → string.

(** [api_profane] tells whether the profanity service answered with status
    200 and the text "true"; an unreachable service counts as no. *)
Definition is_insult (message : string) (api_profane : bool) : option string :=
  let msg := cleaned message in
  let words := split_whitespace msg in
  match List.find (λ insult,
                     let i_norm := normalized insult in
                     existsb (String.eqb i_norm) words || contains i_norm msg)
                  local_insults with
  | Some insult => Some insult
  | None =>
      if api_profane then Some "(externe Beleidigung erkannt)"%string else None
  end.

End Insults.

(** ** umfrage (lines 418-430) *)

Definition umfrage_emojis : list string := ["1️⃣"; "2️⃣"; "3️⃣"; "4️⃣"; "5️⃣"]%string.

(** [for i, opt in enumerate(options): embed.add_field(name=emojis[i], ...)]
    from index [i] on. *)
Fixpoint umfrage_fields (i : nat) (options : list string)
  : result (list (string * string)) :=
  match options with
  | [] => Ok []
  | opt :: options' =>
      match nth_error umfrage_emojis i with
      | None => Raise IndexError
      | Some e =>
          match umfrage_fields (S i) options' with
          | Ok fields => Ok ((e, opt) :: fields)
          | Raise err => Raise err
          end
      end
  end.

(** The poll: the refusal, or the fields of the embed, whose names are also
    the reactions added. *)
Definition umfrage (option1 : string) (option2 option3 option4 option5 : option string)
  : result (string + list (string * string)) :=
  let options :=
    List.filter (λ o, negb (String.eqb o ""))
      (omap id [Some option1; option2; option3; option4; option5]) in
  if (List.length options <? 2)%nat
  then Ok (inl "Bitte gib mindestens zwei Optionen an."%string)
  else match umfrage_fields 0 options with
       | Ok fields => Ok (inr fields)
       | Raise e => Raise e
       end.

(** ** ensure_rank_roles (lines 302-312) and the target role (line 561) *)

(** The name of the role of a rank: [f"{emoji} {name}"]. *)
Definition rank_role_name (rank_name rank_emoji : string) : string :=
  (rank_emoji ++ " " ++ rank_name)%string.

(** The calls [guild.create_role(name=..., colour=...)] of
    [ensure_rank_roles], in order; [existing] is computed once, before the
    loop. *)
Definition ensure_rank_roles (RANKS : list RankTier) (guild_roles : list Role)
  : list (string * Z) :=
  let existing := role_name <$> guild_roles in
  omap (λ r, let role_name_ := rank_role_name (name r) (emoji r) in
             if existsb (String.eqb role_name_) existing then None
             else Some (role_name_, color r))
       RANKS.

(** The role [update_member_title] looks up for a balance. *)
Definition target_role (RANKS : list RankTier) (guild_roles : list Role) (honor : Z)
  : result (option Role) :=
  match member_rank RANKS honor with
  | Ok (rank_name, rank_emoji) => Ok (get guild_roles (rank_role_name rank_name rank_emoji))
  | Raise e => Raise e
  end.

(** * Properties *)

(** ** The monad *)

Lemma connect_ok {A} (txn : Db → A * Db) (d : Db) (fs : list bool) (utc tz : Z) :
  connect txn (mkWorld d (false :: fs) utc tz)
  = (Ok (txn d).1, mkWorld (txn d).2 fs utc tz).
Proof. unfold connect; simpl. by destruct (txn d). Qed.

Lemma connect_quiet {A} (txn : Db → A * Db) (d : Db) (utc tz : Z) :
  connect txn (mkWorld d [] utc tz) = (Ok (txn d).1, mkWorld (txn d).2 [] utc tz).
Proof. unfold connect; simpl. by destruct (txn d). Qed.

Lemma connect_fails {A} (txn : Db → A * Db) (d : Db) (fs : list bool) (utc tz : Z) :
  connect txn (mkWorld d (true :: fs) utc tz)
  = (Raise StoreUnavailable, mkWorld d fs utc tz).
Proof. reflexivity. Qed.

Lemma clamp_range (value : Z) : HONOR_MIN ≤ clamp value ≤ HONOR_MAX.
Proof. unfold clamp, HONOR_MIN, HONOR_MAX. lia. Qed.

(** What [add_user_honor] does, by the outcome of its three connections. *)
Lemma add_user_honor_cases (w : World) (user_id delta : Z) (reason : string)
    (by_ : option Z) :
  let d := db w in
  let d_set := mkDb (<[user_id := clamp (balance d user_id + delta)]> (user_honor d))
                    (honor_log d) (daily_bonus d) (loot_log d) in
  let d_log := mkDb (user_honor d_set)
                    (honor_log d ++ [ledger_row w user_id delta reason by_])
                    (daily_bonus d) (loot_log d) in
  add_user_honor user_id delta reason by_ w =
  match faults w with
  | true :: fs => (Raise StoreUnavailable, mkWorld d fs (utc_us w) (tz_offset w))
  | _ :: true :: fs => (Raise StoreUnavailable, mkWorld d fs (utc_us w) (tz_offset w))
  | _ :: _ :: true :: fs =>
      (Raise StoreUnavailable, mkWorld d_set fs (utc_us w) (tz_offset w))
  | fs => (Ok tt, mkWorld d_log (drop 3 fs) (utc_us w) (tz_offset w))
  end.
Proof.
  destruct w as [d fs utc tz]; simpl.
  destruct fs as [|[] [|[] [|[] fs]]]; reflexivity.
Qed.

(** ** The balance invariant *)

Create HintDb honor.

Lemma preserves_ret {A} (a : A) : preserves (ret a).
Proof. by intros w H. Qed.

Lemma preserves_bind {A B} (m : Store A) (k : A → Store B) :
  preserves m → (∀ a, preserves (k a)) → preserves (bind m k).
Proof.
  intros Hm Hk w H. unfold bind.
  specialize (Hm w H). destruct (m w) as [[a|e] w']; simpl in *; [|done].
  by apply Hk.
Qed.

Lemma preserves_connect {A} (txn : Db → A * Db) :
  (∀ d, balances_in_range d → balances_in_range (txn d).2) → preserves (connect txn).
Proof.
  intros Htxn [d fs utc tz] H; simpl in *. unfold connect; simpl.
  specialize (Htxn d H).
  destruct fs as [|[] fs]; simpl; destruct (txn d); done.
Qed.

Lemma preserves_reader {A} (f : World → A) : preserves (λ w, (Ok (f w), w)).
Proof. by intros w H. Qed.

Lemma preserves_if {A} (b : bool) (m1 m2 : Store A) :
  preserves m1 → preserves m2 → preserves (if b then m1 else m2).
Proof. by destruct b. Qed.

#[local] Hint Resolve preserves_ret preserves_bind preserves_connect
  preserves_reader preserves_if : honor.

Lemma preserves_get_user_honor user_id : preserves (get_user_honor user_id).
Proof. unfold get_user_honor. auto with honor. Qed.

Lemma preserves_set_user_honor user_id value : preserves (set_user_honor user_id value).
Proof.
  apply preserves_connect. intros d H uid b; simpl.
  rewrite lookup_insert. case_decide; [|by apply H].
  intros [= <-]. apply clamp_range.
Qed.

Lemma preserves_log_honor_change user_id delta reason by_ :
  preserves (log_honor_change user_id delta reason by_).
Proof.
  unfold log_honor_change, CURRENT_TIMESTAMP.
  apply preserves_bind; [apply preserves_reader|]. intros ts.
  by apply preserves_connect.
Qed.

#[local] Hint Resolve preserves_get_user_honor preserves_set_user_honor
  preserves_log_honor_change : honor.

Lemma preserves_add_user_honor user_id delta reason by_ :
  preserves (add_user_honor user_id delta reason by_).
Proof. unfold add_user_honor. auto with honor. Qed.

Lemma preserves_can_claim_daily user_id : preserves (can_claim_daily user_id).
Proof. unfold can_claim_daily, date_today. auto 6 with honor. Qed.

Lemma preserves_claim_daily user_id : preserves (claim_daily user_id).
Proof.
  unfold claim_daily, date_today.
  apply preserves_bind; [apply preserves_reader|]. intros today.
  by apply preserves_connect.
Qed.

Lemma preserves_can_open_lootbox user_id : preserves (can_open_lootbox user_id).
Proof.
  unfold can_open_lootbox, datetime_now.
  apply preserves_bind; [by apply preserves_connect|].
  intros [ts|]; auto with honor.
Qed.

Lemma preserves_log_lootbox user_id reward : preserves (log_lootbox user_id reward).
Proof.
  unfold log_lootbox, CURRENT_TIMESTAMP.
  apply preserves_bind; [apply preserves_reader|]. intros ts.
  by apply preserves_connect.
Qed.

Lemma preserves_update_member_title_reads user_id :
  preserves (update_member_title_reads user_id).
Proof. unfold update_member_title_reads. auto with honor. Qed.

#[local] Hint Resolve preserves_add_user_honor preserves_can_claim_daily
  preserves_claim_daily preserves_can_open_lootbox preserves_log_lootbox
  preserves_update_member_title_reads : honor.

Lemma preserves_handle ev : preserves (handle ev).
Proof.
  destruct ev; simpl;
    unfold on_message, bless, thanks, helped, daily, lootbox.
  - destruct author_bot; [auto with honor|].
    destruct insult as [[|c s]|]; auto with honor.
  - auto with honor.
  - auto with honor.
  - auto with honor.
  - auto 7 with honor.
  - auto 7 with honor.
  - auto with honor.
  - auto with honor.
  - by intros w H.
Qed.

Lemma run_preserves (evs : list Event) (w : World) :
  balances_in_range (db w) → balances_in_range (db (run evs w)).
Proof.
  revert w. induction evs as [|ev evs IH]; intros w H; simpl; [done|].
  apply IH. by apply preserves_handle.
Qed.

(** ** The ledger *)

(** C1.  With the store answering, [add_user_honor] returns and the balance
    it leaves for the user is [clamp (current + delta)], where [current] is
    the stored balance or 0 without an account; every other balance is
    untouched.  The clamp acts on each step: two deltas leave
    [clamp (clamp (current + delta1) + delta2)], and from balance 0 two
    deltas of +100000 leave 144000, not 200000. *)
Theorem add_user_honor_clamps_each_step :
  (∀ d user_id delta reason by_ utc tz,
     let r := add_user_honor user_id delta reason by_ (mkWorld d [] utc tz) in
     r.1 = Ok tt
     ∧ user_honor (db r.2)
       = <[user_id := Z.max HONOR_MIN (Z.min HONOR_MAX
                        (default 0 (user_honor d !! user_id) + delta))]> (user_honor d))
  ∧ (∀ d user_id delta1 delta2 reason1 reason2 by1 by2 utc tz,
       let r := (add_user_honor user_id delta1 reason1 by1 ;;;
                 add_user_honor user_id delta2 reason2 by2) (mkWorld d [] utc tz) in
       r.1 = Ok tt
       ∧ balance (db r.2) user_id
         = clamp (clamp (balance d user_id + delta1) + delta2))
  ∧ (∀ user_id reason1 reason2 by1 by2 utc tz,
       let r := (add_user_honor user_id 100000 reason1 by1 ;;;
                 add_user_honor user_id 100000 reason2 by2)
                  (mkWorld init_db [] utc tz) in
       r.1 = Ok tt
       ∧ user_honor (db r.2) !! user_id = Some 144000
       ∧ user_honor (db r.2) !! user_id ≠ Some 200000).
Proof.
  split; [|split].
  - intros. subst r. rewrite add_user_honor_cases. simpl. done.
  - intros. subst r. unfold bind at 1.
    rewrite add_user_honor_cases. simpl.
    split; [done|]. unfold balance, clamp. simpl.
    by rewrite !lookup_insert_eq.
  - intros. subst r. unfold bind at 1.
    rewrite add_user_honor_cases. simpl.
    split; [done|]. rewrite !lookup_insert_eq, lookup_empty. simpl.
    split; [done|]. discriminate.
Qed.

(** C2.  With the store answering, [add_user_honor] appends exactly one row
    to the ledger, and the row carries the requested delta (with the user,
    the reason and the actor), whatever the clamp did to the balance.  From
    an empty ledger and balance 0, two deltas of +100000 leave two rows of
    +100000 each. *)
Theorem add_user_honor_logs_requested_delta :
  (∀ d user_id delta reason by_ utc tz,
     let w := mkWorld d [] utc tz in
     let r := add_user_honor user_id delta reason by_ w in
     r.1 = Ok tt
     ∧ ∃ row, honor_log (db r.2) = honor_log d ++ [row]
              ∧ hl_delta row = delta ∧ hl_user_id row = user_id
              ∧ hl_reason row = reason ∧ hl_by_user row = by_)
  ∧ (∀ user_id reason1 reason2 by1 by2 utc tz,
       let r := (add_user_honor user_id 100000 reason1 by1 ;;;
                 add_user_honor user_id 100000 reason2 by2)
                  (mkWorld init_db [] utc tz) in
       hl_delta <$> honor_log (db r.2) = [100000; 100000]
       ∧ hl_user_id <$> honor_log (db r.2) = [user_id; user_id]).
Proof.
  split.
  - intros. subst r w. rewrite add_user_honor_cases. simpl.
    split; [done|]. eexists. split; [reflexivity|]. done.
  - intros. subst r. unfold bind at 1.
    rewrite add_user_honor_cases. simpl. done.
Qed.

(** C3.  From the database [init_db] creates, whatever handlers run, whatever
    the repository is asked directly, whatever the draws, the clock and the
    storage failures, every stored balance lies in
    [[HONOR_MIN, HONOR_MAX]]. *)
Theorem stored_balances_in_range (evs : list Event) (fs : list bool) (utc tz : Z) :
  ∀ user_id b,
    user_honor (db (run evs (mkWorld init_db fs utc tz))) !! user_id = Some b →
    -144000 ≤ b ≤ 144000.
Proof.
  apply (run_preserves evs (mkWorld init_db fs utc tz)).
  intros uid b; simpl. by rewrite lookup_empty.
Qed.

Lemma stored_balances_in_range_witness :
  user_honor (db (run [EvBless 7 false; EvBless 7 false; EvDaily 7 500]
                      (mkWorld init_db [] 0 0))) !! 7 = Some 144000
  ∧ -144000 ≤ 144000 ≤ 144000.
Proof.
  assert (H : user_honor (db (run [EvBless 7 false; EvBless 7 false; EvDaily 7 500]
                                  (mkWorld init_db [] 0 0))) !! 7 = Some 144000)
    by (vm_compute; reflexivity).
  split; [exact H|].
  exact (stored_balances_in_range _ _ _ _ _ _ H).
Defined.

(** C6, as the code has it.  The balance and the ledger row are written by
    two transactions, each committed on its own connection.  When the read or
    the balance write fails, nothing has changed; when the ledger append
    fails, the clamped balance is already stored and no row is written.  A
    row is never written without the balance. *)
Theorem add_user_honor_two_transactions (w : World) (user_id delta : Z)
    (reason : string) (by_ : option Z) :
  let r := add_user_honor user_id delta reason by_ w in
  let new := clamp (balance (db w) user_id + delta) in
  daily_bonus (db r.2) = daily_bonus (db w)
  ∧ loot_log (db r.2) = loot_log (db w)
  ∧ match faults w with
    | true :: _ | _ :: true :: _ =>
        r.1 = Raise StoreUnavailable ∧ db r.2 = db w
    | _ :: _ :: true :: _ =>
        r.1 = Raise StoreUnavailable
        ∧ user_honor (db r.2) = <[user_id := new]> (user_honor (db w))
        ∧ honor_log (db r.2) = honor_log (db w)
    | _ =>
        r.1 = Ok tt
        ∧ user_honor (db r.2) = <[user_id := new]> (user_honor (db w))
        ∧ honor_log (db r.2)
          = honor_log (db w) ++ [ledger_row w user_id delta reason by_]
    end.
Proof.
  intros r new. subst r. rewrite add_user_honor_cases.
  destruct w as [[uh hl dbn ll] fs utc tz]; simpl.
  destruct fs as [|[] [|[] [|[] fs]]]; simpl; done.
Qed.

(** C6 as stated fails: the ledger append fails on the third connection, and
    the new balance is visible without its row. *)
Lemma add_user_honor_not_atomic :
  ¬ (∀ w user_id delta reason by_ e w',
       add_user_honor user_id delta reason by_ w = (Raise e, w') →
       user_honor (db w') = user_honor (db w)
       ∧ honor_log (db w') = honor_log (db w)).
Proof.
  intros H.
  destruct (H (mkWorld init_db [false; false; true] 0 0) 1 5 ""%string None
              StoreUnavailable
              (mkWorld (mkDb {[1 := 5]} [] ∅ []) [] 0 0)) as [Hb _].
  - rewrite add_user_honor_cases. simpl. reflexivity.
  - simpl in Hb. assert (Hl := f_equal (λ m : gmap Z Z, m !! 1) Hb).
    simpl in Hl. rewrite lookup_singleton_eq, lookup_empty in Hl. discriminate.
Qed.

(** ** Counting reasons *)

Lemma like_percent (pattern text : string) :
  like (String "%" pattern) text
  = like pattern text
    || match text with
       | EmptyString => false
       | String _ text' => like (String "%" pattern) text'
       end.
Proof. destruct text; reflexivity. Qed.

Lemma like_percent_only (text : string) : like "%" text = true.
Proof.
  induction text as [|c text IH]; [reflexivity|].
  rewrite like_percent. by rewrite IH, orb_true_r.
Qed.

Lemma prefix_cons (a b : ascii) (s1 s2 : string) :
  String.prefix (String a s1) (String b s2) = Ascii.eqb a b && String.prefix s1 s2.
Proof.
  simpl. destruct (ascii_dec a b) as [->|Hne].
  - by rewrite Ascii.eqb_refl.
  - apply Ascii.eqb_neq in Hne. by rewrite Hne.
Qed.

(** A literal followed by [%] matches the texts that start with the literal,
    letter case apart. *)
Lemma like_literal (q text : string) :
  no_wildcard q = true →
  like (q ++ "%") text = String.prefix (lower q) (lower text).
Proof.
  revert text. induction q as [|c q IH]; intros text Hq.
  - simpl String.append. rewrite like_percent_only. by destruct text.
  - simpl in Hq. apply andb_prop in Hq as [Hc Hq]. apply andb_prop in Hc as [Hp Hu].
    apply negb_true_iff in Hp, Hu.
    change (String c q ++ "%")%string with (String c (q ++ "%")).
    destruct text as [|d text].
    + simpl. by rewrite Hp.
    + change (lower (String c q)) with (String (sqlite_tolower c) (lower q)).
      change (lower (String d text)) with (String (sqlite_tolower d) (lower text)).
      rewrite prefix_cons, <- IH by done.
      simpl. by rewrite Hp, Hu.
Qed.

(** [LIKE '%q%'] for a literal [q]: the texts that contain [q], letter case
    apart. *)
Lemma like_contains (q text : string) :
  no_wildcard q = true →
  like ("%" ++ q ++ "%") text = contains (lower q) (lower text).
Proof.
  intros Hq. change ("%" ++ q ++ "%")%string with (String "%" (q ++ "%")).
  induction text as [|c text IH].
  - rewrite like_percent, like_literal by done. simpl. by rewrite orb_false_r.
  - rewrite like_percent, like_literal, IH by done. reflexivity.
Qed.

(** C8, as the code has it.  [get_achievement_count] counts the user's ledger
    entries whose reason matches [LIKE '%query%'].  For a query without [%]
    and [_] these are the entries whose reason contains the query as a
    substring with the ASCII letter case left aside. *)
Theorem get_achievement_count_ignores_case (d : Db) (user_id : Z) (query : string)
    (utc tz : Z) :
  no_wildcard query = true →
  get_achievement_count user_id query (mkWorld d [] utc tz)
  = (Ok (Z.of_nat (List.length
           (List.filter (λ row, (hl_user_id row =? user_id)
                                && contains (lower query) (lower (hl_reason row)))
                        (honor_log d)))),
     mkWorld d [] utc tz).
Proof.
  intros Hq. unfold get_achievement_count. rewrite connect_quiet.
  cbv beta. cbn [fst snd]. do 4 f_equal.
  apply List.filter_ext. intros row. by rewrite like_contains.
Qed.

Lemma get_achievement_count_ignores_case_witness :
  no_wildcard "insult" = true
  ∧ (get_achievement_count 1 "insult"
       (mkWorld (mkDb ∅ [mkHonorLogRow 1 1 (-100000) "Beleidigung: Insult" (Some 1) 0;
                         mkHonorLogRow 2 1 20 "" None 0;
                         mkHonorLogRow 3 2 (-100000) "Beleidigung: INSULT" (Some 2) 0]
                       ∅ []) [] 0 0)).1 = Ok 1.
Proof.
  split; [reflexivity|].
  rewrite (get_achievement_count_ignores_case _ 1 "insult" 0 0); reflexivity.
Defined.

(** C8 as stated fails.  A message with the listed word "Insult" is
    penalised; the ledger entry reads "Beleidigung: Insult", and the query
    "insult" counts it although the letter case differs. *)
Lemma get_achievement_count_not_case_sensitive :
  let w := run [EvMessage 1 false (Some "Insult"%string)] (mkWorld init_db [] 0 0) in
  hl_reason <$> honor_log (db w) = ["Beleidigung: Insult"%string]
  ∧ count_reason_spec (db w) 1 "insult" = 0
  ∧ (get_achievement_count 1 "insult" w).1 = Ok 1
  ∧ (get_achievement_count 1 "insult" w).1 ≠ Ok (count_reason_spec (db w) 1 "insult").
Proof. vm_compute. repeat split. discriminate. Qed.

(** ** The lootbox window *)

Lemma can_open_lootbox_answer (d : Db) (user_id utc tz : Z) :
  can_open_lootbox user_id (mkWorld d [] utc tz)
  = (Ok match latest_loot_ts user_id (loot_log d) with
        | None => true
        | Some ts => 86400 * 1000000 <=? utc + tz * 1000000 - ts * 1000000
        end,
     mkWorld d [] utc tz).
Proof.
  unfold can_open_lootbox, bind. rewrite connect_quiet. cbv beta. cbn [fst snd].
  by destruct (latest_loot_ts user_id (loot_log d)).
Qed.

Lemma latest_loot_ts_none (user_id : Z) (rows : list LootLogRow) :
  latest_loot_ts user_id rows = None ↔ ∀ row, In row rows → ll_user_id row ≠ user_id.
Proof.
  induction rows as [|r rows IH]; simpl.
  - split; [by intros _ row []|done].
  - destruct (Z.eqb_spec (ll_user_id r) user_id) as [Heq|Hne].
    + split; [done|]. intros H. by destruct (H r (or_introl eq_refl)).
    + rewrite IH. split.
      * intros H row [<-|Hin]; [done|by apply H].
      * intros H row Hin. apply H. by right.
Qed.

Lemma latest_loot_ts_snoc (user_id ts : Z) (rows : list LootLogRow) (id reward : Z) :
  ∃ t, latest_loot_ts user_id (rows ++ [mkLootLogRow id user_id ts reward]) = Some t
       ∧ ts ≤ t.
Proof.
  unfold latest_loot_ts. rewrite foldr_app. cbn [foldr ll_user_id ll_ts].
  rewrite Z.eqb_refl.
  induction rows as [|r rows (t & Heq & Ht)]; cbn [foldr].
  - exists ts. split; [done|lia].
  - rewrite Heq. destruct (ll_user_id r =? user_id); [|by exists t].
    eexists. split; [done|lia].
Qed.

(** A user without a claim may open a lootbox. *)
Lemma can_open_lootbox_without_claim (d : Db) (user_id utc tz : Z) :
  (∀ row, In row (loot_log d) → ll_user_id row ≠ user_id) →
  (can_open_lootbox user_id (mkWorld d [] utc tz)).1 = Ok true.
Proof.
  intros H. rewrite can_open_lootbox_answer. cbn [fst].
  apply latest_loot_ts_none in H. by rewrite H.
Qed.

(** Right after [log_lootbox], at the same instant, the answer is no (the
    local clock is less than a day ahead of UTC). *)
Lemma can_open_lootbox_after_log_lootbox (d : Db) (user_id reward utc tz : Z) :
  tz < 86400 →
  ((log_lootbox user_id reward ;;; can_open_lootbox user_id)
     (mkWorld d [] utc tz)).1 = Ok false.
Proof.
  intros Htz. unfold bind at 1, log_lootbox, bind, CURRENT_TIMESTAMP.
  cbn [utc_us]. rewrite connect_quiet. cbv beta. cbn [fst snd].
  rewrite can_open_lootbox_answer. cbn [fst loot_log].
  destruct (latest_loot_ts_snoc user_id (utc `div` 1000000) (loot_log d)
              (Z.of_nat (List.length (loot_log d)) + 1) reward) as (t & -> & Ht).
  f_equal. apply Z.leb_gt.
  pose proof (Z.mod_pos_bound utc 1000000 ltac:(lia)).
  pose proof (Z.div_mod utc 1000000 ltac:(lia)). lia.
Qed.

(** With the local clock on UTC, the answer is yes exactly from 86400
    seconds after the stored second of the latest claim. *)
Lemma can_open_lootbox_on_utc (d : Db) (user_id utc ts : Z) :
  latest_loot_ts user_id (loot_log d) = Some ts →
  (can_open_lootbox user_id (mkWorld d [] utc 0)).1
  = Ok (bool_decide (86400 * 1000000 ≤ utc - ts * 1000000)).
Proof.
  intros H. rewrite can_open_lootbox_answer, H. cbn [fst]. f_equal.
  case_bool_decide; [apply Z.leb_le|apply Z.leb_gt]; lia.
Qed.

(** C7, where the code departs from it.  The stored time of a claim is UTC
    ([CURRENT_TIMESTAMP]), the time it is compared with is local
    ([datetime.datetime.now()]).  One hour east of UTC the lootbox opens
    again 82800 seconds after a claim; one hour west of UTC it is still
    closed after 86400 seconds. *)
Theorem can_open_lootbox_mixes_clocks (user_id reward t0 : Z) :
  let claimed tz := (log_lootbox user_id reward (mkWorld init_db [] t0 tz)).2 in
  (can_open_lootbox user_id
     (mkWorld (db (claimed 3600)) [] (t0 + 82800 * 1000000) 3600)).1 = Ok true
  ∧ (can_open_lootbox user_id
       (mkWorld (db (claimed (-3600))) [] (t0 + 86400 * 1000000) (-3600))).1 = Ok false.
Proof.
  intros claimed. subst claimed.
  unfold log_lootbox, bind, CURRENT_TIMESTAMP. cbn [utc_us].
  rewrite !connect_quiet. cbv beta. cbn [fst snd db].
  rewrite !can_open_lootbox_answer. cbn [fst loot_log init_db].
  simpl latest_loot_ts. rewrite Z.eqb_refl.
  pose proof (Z.mod_pos_bound t0 1000000 ltac:(lia)).
  pose proof (Z.div_mod t0 1000000 ltac:(lia)).
  split; f_equal; [apply Z.leb_le|apply Z.leb_gt]; lia.
Qed.

(** ** Sorting *)

Lemma insert_by_In {A} (before : A → A → bool) (x y : A) (l : list A) :
  In y (insert_by before x l) ↔ y = x ∨ In y l.
Proof.
  induction l as [|z l IH]; simpl.
  - intuition.
  - destruct (before x z); simpl; [intuition|]. rewrite IH. intuition.
Qed.

Section Sorting.
Context {A : Type} (key : A → Z) (reverse : bool).

Lemma sorted_In (y : A) (l : list A) : In y (sorted key reverse l) ↔ In y l.
Proof.
  unfold sorted. induction l as [|x l IH]; simpl; [done|].
  rewrite insert_by_In, IH. intuition.
Qed.

Lemma in_order_total (x y : A) :
  before key reverse x y = false → in_order key reverse y x.
Proof.
  unfold before, in_order. destruct reverse; intros H%Z.leb_gt; lia.
Qed.

Lemma in_order_before (x y : A) :
  before key reverse x y = true → in_order key reverse x y.
Proof.
  unfold before, in_order. destruct reverse; intros H%Z.leb_le; lia.
Qed.

Lemma in_order_trans (x y z : A) :
  in_order key reverse x y → in_order key reverse y z → in_order key reverse x z.
Proof. unfold in_order. destruct reverse; lia. Qed.

Lemma insert_by_sorted (x : A) (l : list A) :
  StronglySorted (in_order key reverse) l →
  StronglySorted (in_order key reverse) (insert_by (before key reverse) x l).
Proof.
  induction 1 as [|z l Hl IH Hz]; simpl.
  - repeat constructor.
  - destruct (before key reverse x z) eqn:Hb.
    + apply in_order_before in Hb. constructor; [by constructor|].
      constructor; [done|].
      eapply Forall_impl; [exact Hz|]. intros a Ha. by eapply in_order_trans.
    + apply in_order_total in Hb. constructor; [done|].
      apply List.Forall_forall. intros a Ha%insert_by_In.
      destruct Ha as [->|Ha]; [done|].
      by eapply List.Forall_forall in Hz.
Qed.

Lemma sorted_StronglySorted (l : list A) :
  StronglySorted (in_order key reverse) (sorted key reverse l).
Proof.
  unfold sorted. induction l as [|x l IH]; simpl; [constructor|].
  by apply (insert_by_sorted x).
Qed.

Lemma sorted_nil_inv (l : list A) : sorted key reverse l = [] → l = [].
Proof.
  destruct l as [|x l]; [done|]. intros H.
  assert (Hin : In x (sorted key reverse (x :: l))) by (apply sorted_In; by left).
  rewrite H in Hin. destruct Hin.
Qed.

End Sorting.

(** ** Ranks *)

Section RankProperties.
Variable RANKS : list RankTier.

Lemma find_descending_greatest (honor : Z) (l : list RankTier) (r : RankTier) :
  StronglySorted (in_order threshold true) l →
  List.find (λ r, threshold r <=? honor) l = Some r →
  In r l ∧ threshold r ≤ honor
  ∧ ∀ r', In r' l → threshold r' ≤ honor → threshold r' ≤ threshold r.
Proof.
  induction 1 as [|a l Hl IH Ha]; simpl; [done|].
  destruct (Z.leb_spec (threshold a) honor) as [Hle|Hgt].
  - intros [= <-]. split; [by left|]. split; [done|].
    intros r' [<-|Hin] _; [lia|]. by eapply List.Forall_forall in Ha.
  - intros Hf. destruct (IH Hf) as (Hin & Hr & Hmax).
    split; [by right|]. split; [done|].
    intros r' [<-|Hin'] Hr'; [lia|]. by apply Hmax.
Qed.

(** Whatever the order of the table, a balance at or above some threshold
    gets a tier with the greatest such threshold. *)
Lemma get_rank_greatest_threshold (honor : Z) (r0 : RankTier) :
  In r0 RANKS → threshold r0 ≤ honor →
  ∃ r, get_rank RANKS honor = Ok (name r, emoji r, color r)
       ∧ In r RANKS ∧ threshold r ≤ honor
       ∧ ∀ r', In r' RANKS → threshold r' ≤ honor → threshold r' ≤ threshold r.
Proof.
  intros Hin0 Hle0. unfold get_rank.
  destruct (List.find _ _) as [r|] eqn:Hf.
  - apply find_descending_greatest in Hf as (Hin & Hr & Hmax);
      [|apply sorted_StronglySorted].
    exists r. split; [done|]. split; [by apply sorted_In in Hin|].
    split; [done|]. intros r' Hin'. apply Hmax. by apply sorted_In.
  - eapply find_none in Hf; [|apply sorted_In; exact Hin0].
    apply Z.leb_gt in Hf. lia.
Qed.

(** Below every threshold the answer is the first entry of the table. *)
Lemma get_rank_fallback (honor : Z) (r0 : RankTier) (rest : list RankTier) :
  RANKS = r0 :: rest → (∀ r, In r RANKS → honor < threshold r) →
  get_rank RANKS honor = Ok (name r0, emoji r0, color r0).
Proof.
  intros HR Hall. unfold get_rank.
  destruct (List.find _ _) as [r|] eqn:Hf.
  - apply find_some in Hf as [Hin Hle]. apply sorted_In, Hall in Hin.
    apply Z.leb_le in Hle. lia.
  - by rewrite HR.
Qed.

Lemma ascending_injective (a b : RankTier) :
  ascending RANKS → In a RANKS → In b RANKS → threshold a = threshold b → a = b.
Proof.
  unfold ascending. induction 1 as [|x l Hl IH Hx]; [done|].
  rewrite List.Forall_forall in Hx.
  intros [<-|Ha] [<-|Hb] Heq; [done| | |by apply IH].
  - apply Hx in Hb. lia.
  - apply Hx in Ha. lia.
Qed.

Lemma tier_of_unique (honor : Z) (r r' : RankTier) :
  ascending RANKS → tier_of RANKS honor r → tier_of RANKS honor r' → r' = r.
Proof.
  intros Hasc [Hin [[Hle Hmax]|[Hlow Hmin]]] [Hin' [[Hle' Hmax']|[Hlow' Hmin']]];
    apply ascending_injective; try done.
  - specialize (Hmax r' Hin' Hle'). specialize (Hmax' r Hin Hle). lia.
  - specialize (Hlow' r Hin). lia.
  - specialize (Hlow r' Hin'). lia.
  - specialize (Hmin r' Hin'). specialize (Hmin' r Hin). lia.
Qed.

Lemma get_rank_tier_of (honor : Z) :
  RANKS ≠ [] → ascending RANKS →
  ∃ r, tier_of RANKS honor r ∧ get_rank RANKS honor = Ok (name r, emoji r, color r).
Proof.
  intros Hne Hasc.
  destruct (List.find (λ r, threshold r <=? honor) RANKS) as [r0|] eqn:Hf.
  - apply find_some in Hf as [Hin0 Hle0%Z.leb_le].
    destruct (get_rank_greatest_threshold honor r0 Hin0 Hle0)
      as (r & Hget & Hin & Hle & Hmax).
    exists r. split; [|done]. split; [done|]. left. done.
  - assert (Hall : ∀ r, In r RANKS → honor < threshold r).
    { intros r Hin. eapply find_none in Hf; [|exact Hin]. by apply Z.leb_gt in Hf. }
    destruct RANKS as [|r0 rest] eqn:HR; [done|]. rewrite <- HR in *.
    exists r0. split; [|by eapply get_rank_fallback].
    split; [rewrite HR; by left|]. right. split; [done|].
    unfold ascending in Hasc. rewrite HR in Hasc.
    apply StronglySorted_inv in Hasc as [_ Hr0]. rewrite List.Forall_forall in Hr0.
    intros r'. rewrite HR. intros [<-|Hin]; [lia|]. apply Hr0 in Hin. lia.
Qed.

(** C4.  On a non-empty table in ascending order [get_rank] returns for
    every balance the one tier of the data model: the tier with the
    greatest threshold at or below the balance, the lowest tier when there
    is none; and the balance equal to a tier's threshold gets that very
    tier. *)
Theorem get_rank_resolves :
  RANKS ≠ [] → ascending RANKS →
  (∀ honor, ∃ r, tier_of RANKS honor r
                 ∧ (∀ r', tier_of RANKS honor r' → r' = r)
                 ∧ get_rank RANKS honor = Ok (name r, emoji r, color r))
  ∧ (∀ r, In r RANKS → get_rank RANKS (threshold r) = Ok (name r, emoji r, color r)).
Proof.
  intros Hne Hasc. split.
  - intros honor. destruct (get_rank_tier_of honor Hne Hasc) as (r & Ht & Hget).
    exists r. split; [done|]. split; [|done].
    intros r' Ht'. by eapply tier_of_unique.
  - intros r Hin.
    destruct (get_rank_tier_of (threshold r) Hne Hasc) as (r1 & Ht & Hget).
    assert (r = r1) as <-; [|done].
    eapply tier_of_unique; [done|exact Ht|].
    split; [done|]. left. split; [lia|]. intros r' _ Hle. done.
Qed.

End RankProperties.

Lemma get_rank_resolves_witness :
  get_rank scenario_ranks 999 = Ok ("Peasant", "o", 9807270)%string
  ∧ get_rank scenario_ranks 1000 = Ok ("Knight", "+", 3447003)%string
  ∧ (∀ honor, ∃ r, tier_of scenario_ranks honor r
                   ∧ (∀ r', tier_of scenario_ranks honor r' → r' = r)
                   ∧ get_rank scenario_ranks honor = Ok (name r, emoji r, color r))
  ∧ (∀ r, In r scenario_ranks →
          get_rank scenario_ranks (threshold r) = Ok (name r, emoji r, color r)).
Proof.
  split; [reflexivity|]. split; [reflexivity|].
  apply (get_rank_resolves scenario_ranks).
  - discriminate.
  - unfold ascending, scenario_ranks. repeat constructor; simpl; lia.
Defined.

(** ** Progress *)

Lemma py_clamp_unit (q : Q) : (0 <= py_min (py_max q 0) 1 <= 1)%Q.
Proof.
  unfold py_min, py_max.
  destruct (Qle_bool 0 q) eqn:H0.
  - apply Qle_bool_iff in H0.
    destruct (Qle_bool q 1) eqn:H1; [apply Qle_bool_iff in H1; done|].
    split; [done|apply Qle_refl].
  - split; [apply Qle_refl|done].
Qed.

Lemma true_div_zero_numerator (b : Z) (q : Q) :
  true_div 0 b = Ok q → (py_min (py_max q 0) 1 == 0)%Q.
Proof.
  unfold true_div. destruct (b =? 0); [done|]. intros [= <-].
  assert (Hq : (inject_Z 0 / inject_Z b == 0)%Q).
  { unfold Qdiv. apply Qmult_0_l. }
  unfold py_min, py_max.
  destruct (Qle_bool 0 _) eqn:H0.
  - destruct (Qle_bool _ 1) eqn:H1; [done|].
    assert (Qle_bool (inject_Z 0 / inject_Z b) 1 = true); [|congruence].
    apply Qle_bool_iff. rewrite Hq. done.
  - reflexivity.
Qed.

Section ProgressProperties.
Variable RANKS : list RankTier.

(** The loop stops with [prev] on the balance when the balance is a
    threshold of the sorted table. *)
Lemma progress_scan_at_threshold (honor : Z) (rs : list RankTier)
    (prev next_ : RankTier) :
  StronglySorted (in_order threshold false) rs →
  (threshold prev = honor ∧ (∀ r, In r rs → honor ≤ threshold r))
  ∨ (∃ r, In r rs ∧ threshold r = honor) →
  threshold (progress_scan honor rs prev next_).1 = honor.
Proof.
  intros Hs. revert prev.
  induction Hs as [|r rs Hs IH Hr]; intros prev H; simpl.
  - destruct H as [[H _]|(r & [] & _)]. done.
  - rewrite List.Forall_forall in Hr. unfold in_order in Hr.
    destruct (Z.ltb_spec honor (threshold r)) as [Hlt|Hge]; simpl.
    + destruct H as [[H _]|(r1 & [<-|Hin] & Heq)]; [done|lia|].
      apply Hr in Hin. lia.
    + apply IH. destruct H as [[Hp Hall]|(r1 & [<-|Hin] & Heq)].
      * left. split.
        -- specialize (Hall r (or_introl eq_refl)). lia.
        -- intros r' Hin. apply Hall. by right.
      * left. split; [done|]. intros r' Hin. apply Hr in Hin. lia.
      * right. by exists r1.
Qed.

(** At or above every threshold the loop runs to the end. *)
Lemma progress_scan_above_all (honor : Z) (rs : list RankTier)
    (prev next_ : RankTier) :
  (∀ r, In r rs → threshold r ≤ honor) →
  progress_scan honor rs prev next_ = (default prev (last rs), next_).
Proof.
  revert prev.
  induction rs as [|r rs IH]; intros prev Hall; cbn [progress_scan]; [done|].
  destruct (Z.ltb_spec honor (threshold r)) as [Hlt|Hge].
  - specialize (Hall r (or_introl eq_refl)). lia.
  - rewrite IH by (intros r' Hin; apply Hall; by right).
    rewrite last_cons. by destruct (last rs).
Qed.

(** C9.  On a non-empty table [get_progress_bar] returns for every balance
    (no division by zero); the fraction lies in [[0, 1]]; it is 0 where the
    span is 0, which is the case at or above the last tier; and at a
    tier's threshold the position in the tier is 0 and so is the
    fraction; elsewhere it is the clamped quotient. *)
Theorem get_progress_bar_fraction (honor : Z) :
  RANKS ≠ [] →
  ∃ p, get_progress_bar RANKS honor = Ok p
       ∧ (0 <= percent p <= 1)%Q
       ∧ (span p = 0 → percent p = 0%Q)
       ∧ (span p ≠ 0 →
          percent p = py_min (py_max (inject_Z (pos p) / inject_Z (span p)) 0) 1)
       ∧ ((∀ r, In r RANKS → threshold r ≤ honor) → span p = 0)
       ∧ (∀ r, In r RANKS → threshold r = honor →
               pos p = 0 ∧ (percent p == 0)%Q).
Proof.
  intros Hne. unfold get_progress_bar.
  pose proof (sorted_StronglySorted threshold false RANKS) as Hs.
  pose proof (sorted_In threshold false) as HIn.
  destruct (sorted threshold false RANKS) as [|first rs] eqn:HS.
  { by apply sorted_nil_inv in HS. }
  destruct (last (first :: rs)) as [final|] eqn:Hlast;
    [|by apply last_None in Hlast].
  cbn [head].
  destruct (progress_scan honor (first :: rs) first final) as [prev next_] eqn:Hscan.
  assert (Hat : ∀ r, In r RANKS → threshold r = honor → honor - threshold prev = 0).
  { intros r Hin Heq.
    pose proof (progress_scan_at_threshold honor (first :: rs) first final Hs) as Hp.
    rewrite Hscan in Hp. cbn [fst] in Hp. rewrite Hp; [lia|].
    right. exists r. split; [|done]. rewrite <- HS. by apply HIn. }
  assert (Habove : (∀ r, In r RANKS → threshold r ≤ honor) →
                   threshold next_ - threshold prev = 0).
  { intros Hall.
    rewrite progress_scan_above_all in Hscan.
    - rewrite Hlast in Hscan. cbn in Hscan. injection Hscan as <- <-. lia.
    - intros r Hin. apply Hall. apply HIn. by rewrite HS. }
  destruct (Z.eqb_spec (threshold next_ - threshold prev) 0) as [Hz|Hnz].
  - eexists. split; [reflexivity|]. cbn [percent span pos].
    split; [done|]. split; [done|]. split; [done|]. split; [done|].
    intros r Hin Heq. split; [by eapply Hat|done].
  - unfold true_div.
    destruct (Z.eqb_spec (threshold next_ - threshold prev) 0) as [|_]; [done|].
    eexists. split; [reflexivity|]. cbn [percent span pos].
    split; [apply py_clamp_unit|]. split; [done|]. split; [done|].
    split; [done|].
    intros r Hin Heq. split; [by eapply Hat|].
    rewrite (Hat r Hin Heq).
    apply (true_div_zero_numerator (threshold next_ - threshold prev)).
    unfold true_div.
    by destruct (Z.eqb_spec (threshold next_ - threshold prev) 0).
Qed.

End ProgressProperties.

Lemma get_progress_bar_fraction_witness :
  ∃ p, get_progress_bar scenario_ranks 1000 = Ok p
       ∧ (0 <= percent p <= 1)%Q
       ∧ (span p = 0 → percent p = 0%Q)
       ∧ (span p ≠ 0 →
          percent p = py_min (py_max (inject_Z (pos p) / inject_Z (span p)) 0) 1)
       ∧ ((∀ r, In r scenario_ranks → threshold r ≤ 1000) → span p = 0)
       ∧ (∀ r, In r scenario_ranks → threshold r = 1000 →
               pos p = 0 ∧ (percent p == 0)%Q).
Proof. apply (get_progress_bar_fraction scenario_ranks 1000). discriminate. Defined.

(** ** Roles *)

Lemma role_eqb_refl (r : Role) : role_eqb r r = true.
Proof. apply Z.eqb_refl. Qed.

Lemma role_eqb_sym (a b : Role) : role_eqb a b = role_eqb b a.
Proof. apply Z.eqb_sym. Qed.

Lemma role_in_app (r : Role) (l1 l2 : list Role) :
  role_in r (l1 ++ l2) = role_in r l1 || role_in r l2.
Proof. apply existsb_app. Qed.

Lemma role_in_remove (r r' : Role) (held : list Role) :
  role_in r (List.filter (λ x, negb (role_eqb r' x)) held)
  = role_in r held && negb (role_eqb r' r).
Proof.
  unfold role_in, role_eqb. induction held as [|x held IH]; simpl; [done|].
  destruct (Z.eqb_spec (role_id r') (role_id x)) as [Heq|Hne]; simpl; rewrite IH.
  - destruct (Z.eqb_spec (role_id r) (role_id x)) as [Heq'|Hne']; simpl; [|done].
    rewrite Heq, <- Heq', Z.eqb_refl. simpl. by rewrite andb_false_r.
  - destruct (Z.eqb_spec (role_id r) (role_id x)) as [Heq'|Hne']; simpl; [|done].
    destruct (Z.eqb_spec (role_id r') (role_id r)); [congruence|done].
Qed.

Lemma role_in_apply_request (r : Role) (held : list Role) (rq : Request) :
  role_in r (apply_request held rq)
  = match rq with
    | AddRoles role => role_in r held || role_eqb r role
    | RemoveRoles role => role_in r held && negb (role_eqb role r)
    end.
Proof.
  destruct rq as [role|role]; simpl; [|apply role_in_remove].
  destruct (role_in role held) eqn:Hin.
  - destruct (role_eqb r role) eqn:Heq; [|by rewrite orb_false_r].
    rewrite orb_true_r. unfold role_in, role_eqb in *.
    apply Z.eqb_eq in Heq. by rewrite Heq.
  - rewrite role_in_app. simpl. by rewrite orb_false_r.
Qed.

Lemma role_in_apply_requests_other (r : Role) (rqs : list Request) (held : list Role) :
  (∀ rq, In rq rqs → role_eqb r (role_of rq) = false) →
  role_in r (apply_requests rqs held) = role_in r held.
Proof.
  unfold apply_requests. revert held.
  induction rqs as [|rq rqs IH]; intros held H; simpl; [done|].
  rewrite IH by (intros rq' Hin; apply H; by right).
  rewrite role_in_apply_request.
  pose proof (H rq (or_introl eq_refl)) as Hrq.
  destruct rq as [role|role]; simpl in Hrq.
  - by rewrite Hrq, orb_false_r.
  - by rewrite role_eqb_sym, Hrq, andb_true_r.
Qed.

Lemma get_Some (roles : list Role) (n : string) (r : Role) :
  get roles n = Some r → In r roles ∧ role_name r = n.
Proof. intros [Hin Heq%String.eqb_eq]%find_some. done. Qed.

Lemma distinct_names_distinct_roles (roles : list Role) (a b : Role) :
  List.NoDup (map role_id roles) → In a roles → In b roles →
  role_name a ≠ role_name b → role_eqb a b = false.
Proof.
  intros Hnd Ha Hb Hne. unfold role_eqb. apply Z.eqb_neq. intros Heq.
  apply Hne. f_equal. clear Hne.
  induction roles as [|x roles IH]; [done|].
  simpl in Hnd. apply List.NoDup_cons_iff in Hnd as [Hx Hnd].
  destruct Ha as [<-|Ha], Hb as [<-|Hb]; [done| | |by apply IH].
  - destruct Hx. rewrite Heq. by apply in_map.
  - destruct Hx. rewrite <- Heq. by apply in_map.
Qed.

Lemma reward_step_role (honor : Z) (guild_roles member_roles : list Role)
    (t : Z) (n : string) (rq : Request) :
  In rq (reward_step honor guild_roles member_roles (t, n)) →
  get guild_roles n = Some (role_of rq).
Proof.
  unfold reward_step. destruct (get guild_roles n) as [role|]; [|done].
  destruct (_ && _); [by intros [<-|[]]|].
  destruct (_ && _); [by intros [<-|[]]|done].
Qed.

Section Reconciliation.
Variables (honor : Z) (guild_roles : list Role).
Hypothesis guild_ids : List.NoDup (map role_id guild_roles).

(** The calls made for other entries of a table leave a role alone. *)
Lemma other_entries_leave_alone (table : list (Z * string)) (n : string) (r : Role)
    (member_roles held : list Role) :
  ¬ In n (map snd table) → get guild_roles n = Some r →
  role_in r (apply_requests
               (flat_map (reward_step honor guild_roles member_roles) table) held)
  = role_in r held.
Proof.
  intros Hn Hr. apply role_in_apply_requests_other.
  intros rq ([t n'] & Hin & Hrq)%in_flat_map.
  apply reward_step_role, get_Some in Hrq as [Hin' Hname].
  apply get_Some in Hr as [Hinr Hnr].
  apply (distinct_names_distinct_roles guild_roles); try done.
  rewrite Hname, Hnr. intros ->. apply Hn.
  by apply (in_map snd) in Hin.
Qed.

(** After the calls of a table with no name twice, the member holds a
    reward role of the guild exactly when the balance reaches its
    threshold. *)
Lemma rewards_settled (table : list (Z * string)) (member_roles : list Role)
    (t : Z) (n : string) (r : Role) :
  List.NoDup (map snd table) → In (t, n) table → get guild_roles n = Some r →
  role_in r (apply_requests
               (flat_map (reward_step honor guild_roles member_roles) table)
               member_roles)
  = (t <=? honor).
Proof.
  intros Hnd Hin Hr.
  apply in_split in Hin as (t1 & t2 & ->).
  rewrite map_app in Hnd. simpl in Hnd.
  pose proof (List.NoDup_remove_2 _ _ _ Hnd) as Hn.
  rewrite in_app_iff in Hn.
  rewrite flat_map_app. cbn [flat_map].
  unfold apply_requests. rewrite !foldl_app.
  repeat change (foldl apply_request ?h ?l) with (apply_requests l h).
  rewrite (other_entries_leave_alone t2 n r) by tauto.
  assert (H1 : role_in r (apply_requests
                 (flat_map (reward_step honor guild_roles member_roles) t1)
                 member_roles) = role_in r member_roles)
    by (apply (other_entries_leave_alone t1 n r); tauto).
  revert H1. generalize (apply_requests
    (flat_map (reward_step honor guild_roles member_roles) t1) member_roles).
  intros held H1. unfold reward_step at 1. rewrite Hr.
  destruct (Z.leb_spec t honor) as [Hle|Hgt];
    destruct (role_in r member_roles) eqn:Hm;
    destruct (Z.ltb_spec honor t) as [Hlt|Hge]; try lia;
    cbn [andb negb]; unfold apply_requests; cbn [foldl];
    rewrite ?role_in_apply_request, ?role_eqb_refl; try done.
  - by rewrite orb_true_r.
  - by rewrite andb_false_r.
Qed.

End Reconciliation.

Lemma check_rewards_adds (honor : Z) (guild_roles member_roles : list Role) (r : Role) :
  In (AddRoles r) (check_rewards honor guild_roles member_roles)
  ↔ ∃ t n, In (t, n) REWARD_ROLES ∧ get guild_roles n = Some r
           ∧ t ≤ honor ∧ role_in r member_roles = false.
Proof.
  unfold check_rewards. rewrite in_flat_map. split.
  - intros ([t n] & Hin & Hrq). exists t, n. split; [done|].
    pose proof (reward_step_role _ _ _ _ _ _ Hrq) as Hget. simpl in Hget.
    split; [done|]. unfold reward_step in Hrq. rewrite Hget in Hrq.
    destruct (Z.leb_spec t honor); destruct (role_in r member_roles);
      destruct (Z.ltb_spec honor t); simpl in Hrq;
      try (destruct Hrq as [[=]|[]]); try (destruct Hrq); done.
  - intros (t & n & Hin & Hget & Hle & Hm). exists (t, n). split; [done|].
    unfold reward_step. rewrite Hget, Hm.
    destruct (Z.leb_spec t honor); [by left|lia].
Qed.

Lemma check_rewards_removes (honor : Z) (guild_roles member_roles : list Role)
    (r : Role) :
  In (RemoveRoles r) (check_rewards honor guild_roles member_roles)
  ↔ ∃ t n, In (t, n) REWARD_ROLES ∧ get guild_roles n = Some r
           ∧ honor < t ∧ role_in r member_roles = true.
Proof.
  unfold check_rewards. rewrite in_flat_map. split.
  - intros ([t n] & Hin & Hrq). exists t, n. split; [done|].
    pose proof (reward_step_role _ _ _ _ _ _ Hrq) as Hget. simpl in Hget.
    split; [done|]. unfold reward_step in Hrq. rewrite Hget in Hrq.
    destruct (Z.leb_spec t honor); destruct (role_in r member_roles);
      destruct (Z.ltb_spec honor t); simpl in Hrq;
      try (destruct Hrq as [[=]|[]]); try (destruct Hrq); done.
  - intros (t & n & Hin & Hget & Hlt & Hm). exists (t, n). split; [done|].
    unfold reward_step. rewrite Hget, Hm.
    destruct (Z.leb_spec t honor); [lia|]. simpl.
    destruct (Z.ltb_spec honor t); [by left|lia].
Qed.

Lemma REWARD_ROLES_names : List.NoDup (map snd REWARD_ROLES).
Proof.
  unfold REWARD_ROLES. simpl.
  repeat (apply List.NoDup_cons; [simpl; intuition discriminate|]).
  apply List.NoDup_nil.
Qed.

Lemma flat_map_nil {A B} (f : A → list B) (l : list A) :
  (∀ x, In x l → f x = []) → flat_map f l = [].
Proof.
  induction l as [|x l IH]; intros H; simpl; [done|].
  rewrite (H x (or_introl eq_refl)), IH; [done|].
  intros y Hy. apply H. by right.
Qed.

(** C5.  In a guild whose roles have distinct ids, the calls of
    [check_rewards], a function of the balance and the roles observed, add
    the reward roles of the guild whose threshold the balance reaches and
    which the member lacks, and remove those whose threshold lies above the
    balance and which the member holds; once the calls are applied,
    [check_rewards] has nothing left to do. *)
Theorem check_rewards_idempotent (honor : Z) (guild_roles member_roles : list Role) :
  List.NoDup (map role_id guild_roles) →
  (∀ role, In (AddRoles role) (check_rewards honor guild_roles member_roles)
           ↔ ∃ t n, In (t, n) REWARD_ROLES ∧ get guild_roles n = Some role
                    ∧ t ≤ honor ∧ role_in role member_roles = false)
  ∧ (∀ role, In (RemoveRoles role) (check_rewards honor guild_roles member_roles)
             ↔ ∃ t n, In (t, n) REWARD_ROLES ∧ get guild_roles n = Some role
                      ∧ honor < t ∧ role_in role member_roles = true)
  ∧ check_rewards honor guild_roles
      (apply_requests (check_rewards honor guild_roles member_roles) member_roles)
    = [].
Proof.
  intros Hids.
  split; [intros role; apply check_rewards_adds|].
  split; [intros role; apply check_rewards_removes|].
  unfold check_rewards at 1. apply flat_map_nil. intros [t n] Hin.
  unfold reward_step. destruct (get guild_roles n) as [role|] eqn:Hget; [|done].
  unfold check_rewards.
  rewrite (rewards_settled honor guild_roles Hids REWARD_ROLES member_roles t n role
             REWARD_ROLES_names Hin Hget).
  destruct (Z.leb_spec t honor); destruct (Z.ltb_spec honor t); try lia; done.
Qed.

Lemma check_rewards_idempotent_witness :
  let everyone := mkRole 1 1 "@everyone" false in
  let vip := mkRole 2 1 "VIP" false in
  let elite := mkRole 3 1 "Elite" false in
  let star := mkRole 4 1 "Star" false in
  let guild_roles := [everyone; vip; elite; star] in
  let member_roles := [everyone; elite] in
  List.NoDup (map role_id guild_roles)
  ∧ check_rewards 20000 guild_roles member_roles = [AddRoles vip; RemoveRoles elite]
  ∧ apply_requests (check_rewards 20000 guild_roles member_roles) member_roles
    = [everyone; vip]
  ∧ check_rewards 20000 guild_roles
      (apply_requests (check_rewards 20000 guild_roles member_roles) member_roles)
    = [].
Proof.
  intros everyone vip elite star guild_roles member_roles.
  assert (Hids : List.NoDup (map role_id guild_roles)).
  { simpl. repeat (apply List.NoDup_cons; [simpl; lia|]). apply List.NoDup_nil. }
  split; [exact Hids|]. split; [reflexivity|]. split; [reflexivity|].
  exact (proj2 (proj2 (check_rewards_idempotent 20000 guild_roles member_roles Hids))).
Defined.

(** ** Old roles *)

Lemma remove_old_roles_calls (forbidden : Role → bool) (snapshot : list Role)
    (calls : list Request) (held : list Role) :
  (remove_old_roles forbidden snapshot (calls, held)).1
  = calls ++ map RemoveRoles (List.filter (λ r, negb (spared r)) snapshot).
Proof.
  revert calls held. induction snapshot as [|role snapshot IH]; intros calls held.
  - simpl. by rewrite app_nil_r.
  - simpl. destruct (spared role); simpl; [apply IH|].
    by rewrite IH, <- app_assoc.
Qed.

Lemma remove_old_roles_held (forbidden : Role → bool) (snapshot : list Role)
    (calls : list Request) (held : list Role) (r : Role) :
  In r (remove_old_roles forbidden snapshot (calls, held)).2
  ↔ In r held
    ∧ ∀ r', In r' snapshot → role_id r' = role_id r →
            spared r' = true ∨ forbidden r' = true.
Proof.
  revert calls held. induction snapshot as [|role snapshot IH]; intros calls held.
  - simpl. intuition.
  - simpl. destruct (spared role) eqn:Hsp.
    + rewrite IH. split.
      * intros [Hin H]. split; [done|]. intros r' [<-|Hr'] Hid; [by left|by apply H].
      * intros [Hin H]. split; [done|]. intros r' Hr'. apply H. by right.
    + rewrite IH. destruct (forbidden role) eqn:Hf.
      * split.
        -- intros [Hin H]. split; [done|].
           intros r' [<-|Hr'] Hid; [by right|by apply H].
        -- intros [Hin H]. split; [done|]. intros r' Hr'. apply H. by right.
      * simpl. rewrite filter_In, negb_true_iff. unfold role_eqb.
        rewrite Z.eqb_neq. split.
        -- intros [[Hin Hne] H]. split; [done|].
           intros r' [<-|Hr'] Hid; [done|by apply H].
        -- intros [Hin H]. split.
           ++ split; [done|]. intros Hid.
              destruct (H role (or_introl eq_refl) Hid); congruence.
           ++ intros r' Hr'. apply H. by right.
Qed.

(** C10.  The loop of [update_member_title] asks the platform to remove
    every role the member holds except the default role, the roles with the
    administrator permission and the roles whose lowercased name contains
    "mod" or "admin"; whether a role is a rank role or a reward role plays no
    part.  A role stays when it is one of these exceptions or the platform
    forbids its removal (a role is identified by its id). *)
Theorem update_member_title_strips_roles (forbidden : Role → bool)
    (member_roles : list Role) :
  let st := remove_old_roles forbidden member_roles ([], member_roles) in
  st.1 = map RemoveRoles
           (List.filter
              (λ role, negb (is_default role || role_administrator role
                             || contains "mod" (lower (role_name role))
                             || contains "admin" (lower (role_name role))))
              member_roles)
  ∧ (∀ role, In role st.2
             ↔ In role member_roles
               ∧ ∀ r', In r' member_roles → role_id r' = role_id role →
                       spared r' = true ∨ forbidden r' = true)
  ∧ (∀ role, In role member_roles → spared role = false →
             In (RemoveRoles role) st.1
             ∧ (forbidden role = false → ¬ In role st.2)).
Proof.
  intros st. subst st. split; [|split].
  - by rewrite remove_old_roles_calls.
  - intros role. apply remove_old_roles_held.
  - intros role Hin Hsp. split.
    + rewrite remove_old_roles_calls. simpl. apply in_map.
      apply filter_In. split; [done|]. by rewrite Hsp.
    + intros Hf [_ H]%remove_old_roles_held.
      destruct (H role Hin eq_refl); congruence.
Qed.

(** A member with a hobby role, a moderator role and a rank role: the hobby
    role and the rank role are removed, "Commodore" passes for a moderator. *)
Lemma update_member_title_strips_roles_witness :
  let everyone := mkRole 1 1 "@everyone" false in
  let gamer := mkRole 5 1 "Gamer" false in
  let moderator := mkRole 6 1 "Moderator" false in
  let owner := mkRole 7 1 "Owner" true in
  let commodore := mkRole 8 1 "Commodore" false in
  let knight := mkRole 9 1 "+ Knight" false in
  let member_roles := [everyone; gamer; moderator; owner; commodore; knight] in
  let st := remove_old_roles (λ _, false) member_roles ([], member_roles) in
  st.1 = [RemoveRoles gamer; RemoveRoles knight]
  ∧ st.2 = [everyone; moderator; owner; commodore]
  ∧ In (RemoveRoles gamer) st.1
  ∧ ¬ In gamer st.2.
Proof.
  intros everyone gamer moderator owner commodore knight member_roles st.
  split; [reflexivity|]. split; [reflexivity|].
  assert (Hin : In gamer member_roles) by (right; left; reflexivity).
  destruct (proj2 (proj2 (update_member_title_strips_roles (λ _, false) member_roles))
              gamer Hin eq_refl) as [Hcall Hgone].
  split; [exact Hcall|]. exact (Hgone eq_refl).
Defined.

(** * Further properties of the repository and the handlers *)

(** ** Moving along a relation *)

Section Steps.
Variable R : Db → Db → Prop.
Hypothesis R_refl : ∀ d, R d d.
Hypothesis R_trans : ∀ d1 d2 d3, R d1 d2 → R d2 d3 → R d1 d3.

Lemma steps_ret {A} (a : A) : steps R (ret a).
Proof. intros w. apply R_refl. Qed.

Lemma steps_reader {A} (f : World → A) : steps R (λ w, (Ok (f w), w)).
Proof. intros w. apply R_refl. Qed.

Lemma steps_bind {A B} (m : Store A) (k : A → Store B) :
  steps R m → (∀ a, steps R (k a)) → steps R (bind m k).
Proof.
  intros Hm Hk w. unfold bind. specialize (Hm w).
  destruct (m w) as [[a|e] w']; simpl in *; [|done].
  eapply R_trans; [exact Hm|apply Hk].
Qed.

Lemma steps_connect {A} (txn : Db → A * Db) :
  (∀ d, R d (txn d).2) → steps R (connect txn).
Proof.
  intros Htxn [d fs utc tz]. unfold connect; simpl. specialize (Htxn d).
  destruct fs as [|[] fs]; simpl; destruct (txn d); try done; apply R_refl.
Qed.

Lemma steps_if {A} (b : bool) (m1 m2 : Store A) :
  steps R m1 → steps R m2 → steps R (if b then m1 else m2).
Proof. by destruct b. Qed.

Lemma steps_get_user_honor user_id : steps R (get_user_honor user_id).
Proof. apply steps_connect. intros d. apply R_refl. Qed.

Lemma steps_update_member_title_reads user_id :
  steps R (update_member_title_reads user_id).
Proof.
  unfold update_member_title_reads.
  repeat (apply steps_bind; [apply steps_get_user_honor|intros _]).
  apply steps_ret.
Qed.

Lemma steps_can_claim_daily user_id : steps R (can_claim_daily user_id).
Proof.
  unfold can_claim_daily, date_today.
  apply steps_bind; [apply steps_connect; intros d; apply R_refl|]. intros row.
  apply steps_bind; [apply steps_reader|]. intros today. apply steps_ret.
Qed.

Lemma steps_can_open_lootbox user_id : steps R (can_open_lootbox user_id).
Proof.
  unfold can_open_lootbox, datetime_now.
  apply steps_bind; [apply steps_connect; intros d; apply R_refl|].
  intros [ts|]; [|apply steps_ret].
  apply steps_bind; [apply steps_reader|]. intros now. apply steps_ret.
Qed.

Variable touch : Z → Prop.
Variable entry : Z → Z → string → option Z → Prop.

Hypothesis R_set : ∀ d u v,
  touch u → HONOR_MIN ≤ v ≤ HONOR_MAX →
  R d (mkDb (<[u := v]> (user_honor d)) (honor_log d) (daily_bonus d) (loot_log d)).
Hypothesis R_log : ∀ d u delta reason by_ ts,
  entry u delta reason by_ →
  R d (mkDb (user_honor d)
            (honor_log d ++ [mkHonorLogRow (Z.of_nat (List.length (honor_log d)) + 1)
                                           u delta reason by_ ts])
            (daily_bonus d) (loot_log d)).
Hypothesis R_claim : ∀ d u day,
  R d (mkDb (user_honor d) (honor_log d) (<[u := day]> (daily_bonus d)) (loot_log d)).
Hypothesis R_loot : ∀ d u ts reward,
  R d (mkDb (user_honor d) (honor_log d) (daily_bonus d)
            (loot_log d ++ [mkLootLogRow (Z.of_nat (List.length (loot_log d)) + 1)
                                         u ts reward])).

Lemma steps_set_user_honor u value : touch u → steps R (set_user_honor u value).
Proof.
  intros Hu. apply steps_connect. intros d; simpl.
  apply R_set; [done|]. apply clamp_range.
Qed.

Lemma steps_log_honor_change u delta reason by_ :
  entry u delta reason by_ → steps R (log_honor_change u delta reason by_).
Proof.
  intros He. unfold log_honor_change, CURRENT_TIMESTAMP.
  apply steps_bind; [apply steps_reader|]. intros ts.
  apply steps_connect. intros d; simpl. by apply R_log.
Qed.

Lemma steps_add_user_honor u delta reason by_ :
  touch u → entry u delta reason by_ → steps R (add_user_honor u delta reason by_).
Proof.
  intros Hu He. unfold add_user_honor.
  apply steps_bind; [apply steps_get_user_honor|]. intros current.
  apply steps_bind; [by apply steps_set_user_honor|]. intros _.
  by apply steps_log_honor_change.
Qed.

Lemma steps_claim_daily u : steps R (claim_daily u).
Proof.
  unfold claim_daily, date_today.
  apply steps_bind; [apply steps_reader|]. intros today.
  apply steps_connect. intros d; simpl. apply R_claim.
Qed.

Lemma steps_log_lootbox u reward : steps R (log_lootbox u reward).
Proof.
  unfold log_lootbox, CURRENT_TIMESTAMP.
  apply steps_bind; [apply steps_reader|]. intros ts.
  apply steps_connect. intros d; simpl. apply R_loot.
Qed.

Lemma steps_credit u delta reason by_ :
  touch u → entry u delta reason by_ →
  steps R (add_user_honor u delta reason by_ ;;; update_member_title_reads u).
Proof.
  intros Hu He. apply steps_bind; [by apply steps_add_user_honor|]. intros _.
  apply steps_update_member_title_reads.
Qed.

Lemma steps_handle (ev : Event) : allowed touch entry ev → steps R (handle ev).
Proof.
  intros [Hu He].
  destruct ev as [author [] insult|user []|user []|user []|u bonus|u reward
                  |u delta reason by_|u value|fs utc tz]; simpl;
    unfold on_message, bless, thanks, helped, daily, lootbox;
    try apply steps_ret;
    try (apply steps_credit; [by apply Hu|by apply He]).
  - destruct insult as [[|c s]|]; try apply steps_ret.
    apply steps_credit; [by apply Hu|by apply He].
  - apply steps_bind; [apply steps_can_claim_daily|]. intros can.
    apply steps_if; [apply steps_ret|].
    apply steps_bind; [apply steps_add_user_honor; [by apply Hu|by apply He]|].
    intros _. apply steps_bind; [apply steps_claim_daily|]. intros _.
    apply steps_update_member_title_reads.
  - apply steps_bind; [apply steps_can_open_lootbox|]. intros can.
    apply steps_if; [apply steps_ret|].
    apply steps_bind; [apply steps_add_user_honor; [by apply Hu|by apply He]|].
    intros _. apply steps_bind; [apply steps_log_lootbox|]. intros _.
    apply steps_update_member_title_reads.
  - apply steps_add_user_honor; [by apply Hu|by apply He].
  - apply steps_set_user_honor. by apply Hu.
  - intros w. apply R_refl.
Qed.

Lemma steps_run (evs : list Event) (w : World) :
  Forall (allowed touch entry) evs → R (db w) (db (run evs w)).
Proof.
  intros Hevs. revert w.
  induction Hevs as [|ev evs Hev _ IH]; intros w; simpl; [apply R_refl|].
  eapply R_trans; [apply (steps_handle ev Hev w)|apply IH].
Qed.

End Steps.

(** ** Balances *)

(** Writing a balance and reading it back gives the clamped value; the
    balance of any other user reads as before. *)
Theorem set_user_honor_then_get (d : Db) (user_id value utc tz : Z) :
  ((set_user_honor user_id value ;;; get_user_honor user_id)
     (mkWorld d [] utc tz)).1 = Ok (Z.max (-144000) (Z.min 144000 value))
  ∧ ∀ other, other ≠ user_id →
      ((set_user_honor user_id value ;;; get_user_honor other)
         (mkWorld d [] utc tz)).1 = Ok (balance d other).
Proof.
  unfold bind, set_user_honor, get_user_honor. rewrite connect_quiet.
  cbv beta. cbn [fst snd]. split.
  - rewrite connect_quiet. cbn [fst user_honor]. by rewrite lookup_insert_eq.
  - intros other Hne. rewrite connect_quiet. cbn [fst user_honor].
    by rewrite lookup_insert_ne.
Qed.

Lemma set_user_honor_then_get_witness :
  ((set_user_honor 7 200000 ;;; get_user_honor 7) (mkWorld init_db [] 0 0)).1
  = Ok 144000
  ∧ ((set_user_honor 7 200000 ;;; get_user_honor 8) (mkWorld init_db [] 0 0)).1
    = Ok 0.
Proof.
  split.
  - exact (proj1 (set_user_honor_then_get init_db 7 200000 0 0)).
  - apply (proj2 (set_user_honor_then_get init_db 7 200000 0 0) 8). lia.
Defined.

(** On a balance within the bounds, a delta moves the balance in its own
    direction and by no more than its size. *)
Theorem add_user_honor_effective_delta (d : Db) (user_id delta : Z) (reason : string)
    (by_ : option Z) (utc tz : Z) :
  HONOR_MIN ≤ balance d user_id ≤ HONOR_MAX →
  let after :=
    balance (db (add_user_honor user_id delta reason by_ (mkWorld d [] utc tz)).2)
            user_id in
  (0 ≤ delta → balance d user_id ≤ after ≤ balance d user_id + delta)
  ∧ (delta ≤ 0 → balance d user_id + delta ≤ after ≤ balance d user_id).
Proof.
  intros Hb after. subst after. rewrite add_user_honor_cases. cbn [faults db snd].
  remember (balance d user_id) as b eqn:Hbal.
  unfold balance. cbn [user_honor]. rewrite lookup_insert_eq. simpl.
  unfold clamp, HONOR_MIN, HONOR_MAX in *. lia.
Qed.

Lemma add_user_honor_effective_delta_witness :
  HONOR_MIN ≤ balance init_db 7 ≤ HONOR_MAX
  ∧ balance (db (add_user_honor 7 200000 "" None (mkWorld init_db [] 0 0)).2) 7
    ≤ 0 + 200000.
Proof.
  assert (H : HONOR_MIN ≤ balance init_db 7 ≤ HONOR_MAX) by (vm_compute; done).
  split; [exact H|].
  apply (proj1 (add_user_honor_effective_delta init_db 7 200000 "" None 0 0 H)).
  lia.
Defined.

(** Whatever runs, with whatever failures, the stored balance of a user no
    event is about stays as it is. *)
Theorem other_users_untouched (evs : list Event) (w : World) (v : Z) :
  Forall (λ ev, event_user ev ≠ Some v) evs →
  user_honor (db (run evs w)) !! v = user_honor (db w) !! v.
Proof.
  intros Hevs.
  apply (steps_run (λ d d', user_honor d' !! v = user_honor d !! v)
           ltac:(done) ltac:(intros ??? H1 H2; simpl in *; congruence)
           (λ u, u ≠ v) (λ _ _ _ _, True)); try done.
  - intros d u b Hu _. simpl. by rewrite lookup_insert_ne.
  - eapply Forall_impl; [exact Hevs|]. intros ev Hev. split; [|done].
    intros u Hu ->. done.
Qed.

Lemma other_users_untouched_witness :
  user_honor (db (run [EvBless 7 false; EvMessage 7 false (Some "fool"%string);
                       EvDaily 7 300]
                      (mkWorld (mkDb {[8 := 50]} [] ∅ []) [false; true] 0 0)))
    !! 8 = Some 50.
Proof.
  rewrite (other_users_untouched _ _ 8).
  - reflexivity.
  - repeat constructor; simpl; intros [= H]; lia.
Defined.

(** ** The logs *)

(** Whatever runs, with whatever failures, both logs only grow at the end:
    no row is ever changed or removed. *)
Theorem logs_append_only (evs : list Event) (w : World) :
  honor_log (db w) `prefix_of` honor_log (db (run evs w))
  ∧ loot_log (db w) `prefix_of` loot_log (db (run evs w)).
Proof.
  apply (steps_run (λ d d', honor_log d `prefix_of` honor_log d'
                            ∧ loot_log d `prefix_of` loot_log d'))
    with (touch := λ _, True) (entry := λ _ _ _ _, True).
  - intros d. split; reflexivity.
  - intros d1 d2 d3 [H1 H2] [H3 H4]. split; etrans; done.
  - intros. simpl. split; reflexivity.
  - intros. simpl. split; [by apply prefix_app_r|reflexivity].
  - intros. simpl. split; reflexivity.
  - intros. simpl. split; [reflexivity|by apply prefix_app_r].
  - apply Forall_forall. intros ev _. done.
Qed.

(** From the fresh database on, the rows of both logs carry the ids
    1, 2, 3, ... in the order they were written. *)
Theorem log_ids_in_sequence (evs : list Event) (fs : list bool) (utc tz : Z) :
  let d := db (run evs (mkWorld init_db fs utc tz)) in
  ids_in_sequence hl_id (honor_log d) ∧ ids_in_sequence ll_id (loot_log d).
Proof.
  assert (Hsnoc : ∀ A (id : A → Z) (rows : list A) (row : A),
             ids_in_sequence id rows → id row = Z.of_nat (List.length rows) + 1 →
             ids_in_sequence id (rows ++ [row])).
  { intros A id rows row Hrows Hid i r Hi.
    apply lookup_app_Some in Hi as [Hi|[Hlen Hi]]; [by apply Hrows|].
    apply list_lookup_singleton_Some in Hi as [Hi <-].
    rewrite Hid. replace i with (List.length rows) by lia. done. }
  intros d. subst d.
  pose (R := λ d d' : Db, ids_in_sequence hl_id (honor_log d)
                          ∧ ids_in_sequence ll_id (loot_log d) →
                          ids_in_sequence hl_id (honor_log d')
                          ∧ ids_in_sequence ll_id (loot_log d')).
  assert (Hrun : R init_db (db (run evs (mkWorld init_db fs utc tz)))).
  { apply (steps_run R) with (touch := λ _, True) (entry := λ _ _ _ _, True)
                             (w := mkWorld init_db fs utc tz); unfold R.
    - done.
    - intros d1 d2 d3 H1 H2 H. auto.
    - done.
    - intros d u delta reason by_ ts _ [H1 H2]. simpl.
      split; [by apply Hsnoc|done].
    - done.
    - intros d u ts reward [H1 H2]. simpl. split; [done|by apply Hsnoc].
    - apply Forall_forall. intros ev _. done. }
  apply Hrun. simpl. split; intros i row Hi; by rewrite lookup_nil in Hi.
Qed.

(** ** The daily bonus *)

Lemma can_claim_daily_answer (d : Db) (user_id utc tz : Z) :
  can_claim_daily user_id (mkWorld d [] utc tz)
  = (Ok match daily_bonus d !! user_id with
        | None => true
        | Some last_claimed => negb (last_claimed =? local_day utc tz)
        end,
     mkWorld d [] utc tz).
Proof.
  unfold can_claim_daily, bind, date_today, ret. by rewrite connect_quiet.
Qed.

Lemma can_claim_daily_answer_ok (d : Db) (user_id utc tz : Z) (fs : list bool) :
  can_claim_daily user_id (mkWorld d (false :: fs) utc tz)
  = (Ok match daily_bonus d !! user_id with
        | None => true
        | Some last_claimed => negb (last_claimed =? local_day utc tz)
        end,
     mkWorld d fs utc tz).
Proof.
  unfold can_claim_daily, bind, date_today, ret. by rewrite connect_ok.
Qed.

Lemma claim_daily_quiet (d : Db) (user_id utc tz : Z) :
  claim_daily user_id (mkWorld d [] utc tz)
  = (Ok tt, mkWorld (mkDb (user_honor d) (honor_log d)
                          (<[user_id := local_day utc tz]> (daily_bonus d))
                          (loot_log d)) [] utc tz).
Proof. unfold claim_daily, bind, date_today. by rewrite connect_quiet. Qed.

(** A user without a claim may claim; after [claim_daily] the answer is no
    as long as the local calendar day is the day of the claim, and yes on
    any other day, however little time has passed. *)
Theorem claim_daily_closes_the_day (d : Db) (user_id utc tz utc' tz' : Z) :
  (daily_bonus d !! user_id = None →
   (can_claim_daily user_id (mkWorld d [] utc tz)).1 = Ok true)
  ∧ (can_claim_daily user_id
       (mkWorld (db (claim_daily user_id (mkWorld d [] utc tz)).2) [] utc' tz')).1
    = Ok (bool_decide (local_day utc' tz' ≠ local_day utc tz)).
Proof.
  split.
  - intros Hnone. by rewrite can_claim_daily_answer, Hnone.
  - rewrite claim_daily_quiet, can_claim_daily_answer. cbn [fst snd db daily_bonus].
    rewrite lookup_insert_eq. f_equal.
    case_bool_decide as Hd; [apply negb_true_iff, Z.eqb_neq; congruence|].
    apply negb_false_iff, Z.eqb_eq.
    destruct (decide (local_day utc tz = local_day utc' tz')); [done|].
    destruct Hd. congruence.
Qed.

Lemma claim_daily_closes_the_day_witness :
  (can_claim_daily 7 (mkWorld init_db [] 86399999999 0)).1 = Ok true
  ∧ (can_claim_daily 7
       (mkWorld (db (claim_daily 7 (mkWorld init_db [] 86399999999 0)).2) []
                86400000000 0)).1 = Ok true.
Proof.
  split.
  - apply (proj1 (claim_daily_closes_the_day init_db 7 86399999999 0 0 0)).
    reflexivity.
  - exact (proj2 (claim_daily_closes_the_day init_db 7 86399999999 0
                    86400000000 0)).
Defined.

(** What [daily] does while the store answers: nothing when the user has
    claimed today, otherwise it credits the bonus, writes the ledger row and
    records the claim. *)
Lemma daily_quiet (d : Db) (user_id bonus utc tz : Z) :
  daily user_id bonus (mkWorld d [] utc tz)
  = (Ok tt,
     mkWorld
       (if bool_decide (daily_bonus d !! user_id = Some (local_day utc tz)) then d
        else mkDb (<[user_id := clamp (balance d user_id + bonus)]> (user_honor d))
                  (honor_log d ++
                   [mkHonorLogRow (Z.of_nat (List.length (honor_log d)) + 1) user_id
                                  bonus "Daily Bonus" (Some user_id)
                                  (utc `div` 1000000)])
                  (<[user_id := local_day utc tz]> (daily_bonus d))
                  (loot_log d))
       [] utc tz).
Proof.
  unfold daily. unfold bind at 1. rewrite can_claim_daily_answer.
  destruct (daily_bonus d !! user_id) as [last|] eqn:Hlast.
  - destruct (Z.eqb_spec last (local_day utc tz)) as [->|Hne]; simpl negb.
    + rewrite bool_decide_eq_true_2 by done. by destruct d.
    + rewrite bool_decide_eq_false_2 by congruence.
      cbn [negb]. unfold bind at 1. rewrite add_user_honor_cases.
      cbn [faults db utc_us tz_offset drop]. unfold bind at 1.
      rewrite claim_daily_quiet. reflexivity.
  - rewrite bool_decide_eq_false_2 by done.
    cbn [negb]. unfold bind at 1. rewrite add_user_honor_cases.
    cbn [faults db utc_us tz_offset drop]. unfold bind at 1.
    rewrite claim_daily_quiet. reflexivity.
Qed.

(** While the store answers, [daily] credits at most once per local
    calendar day: a second run on the same day changes nothing. *)
Theorem daily_once_per_day (d : Db) (user_id bonus1 bonus2 utc1 utc2 tz1 tz2 : Z) :
  local_day utc2 tz2 = local_day utc1 tz1 →
  let d1 := db (daily user_id bonus1 (mkWorld d [] utc1 tz1)).2 in
  db (daily user_id bonus2 (mkWorld d1 [] utc2 tz2)).2 = d1.
Proof.
  intros Hday d1. subst d1. rewrite (daily_quiet d). cbn [snd db].
  rewrite daily_quiet. cbn [snd db]. rewrite Hday.
  case_bool_decide as H1; [reflexivity|]. destruct H1.
  case_bool_decide as H2; [done|]. cbn [daily_bonus]. by rewrite lookup_insert_eq.
Qed.

Lemma daily_once_per_day_witness :
  local_day 7200000000 0 = local_day 3600000000 0
  ∧ balance (db (daily 7 500 (mkWorld (db (daily 7 300 (mkWorld init_db [] 3600000000 0)).2)
                                      [] 7200000000 0)).2) 7 = 300.
Proof.
  assert (H : local_day 7200000000 0 = local_day 3600000000 0) by reflexivity.
  split; [exact H|].
  rewrite (daily_once_per_day init_db 7 300 500 3600000000 7200000000 0 0 H).
  reflexivity.
Defined.

(** When recording the claim fails, the bonus is already credited and
    logged, no claim is recorded, and the user may claim again the same
    day. *)
Theorem daily_claim_not_recorded (d : Db) (user_id bonus utc tz : Z) :
  daily_bonus d !! user_id ≠ Some (local_day utc tz) →
  let r := daily user_id bonus (mkWorld d [false; false; false; false; true] utc tz) in
  r.1 = Raise StoreUnavailable
  ∧ balance (db r.2) user_id = clamp (balance d user_id + bonus)
  ∧ hl_delta <$> honor_log (db r.2) = (hl_delta <$> honor_log d) ++ [bonus]
  ∧ daily_bonus (db r.2) = daily_bonus d
  ∧ (can_claim_daily user_id (mkWorld (db r.2) [] utc tz)).1 = Ok true.
Proof.
  intros Hday r.
  assert (Hcan : match daily_bonus d !! user_id with
                 | None => true
                 | Some last => negb (last =? local_day utc tz)
                 end = true).
  { destruct (daily_bonus d !! user_id) as [last|]; [|done].
    apply negb_true_iff, Z.eqb_neq. congruence. }
  assert (Hr : r = (Raise StoreUnavailable,
                    mkWorld (mkDb (<[user_id := clamp (balance d user_id + bonus)]>
                                     (user_honor d))
                                  (honor_log d ++
                                   [mkHonorLogRow
                                      (Z.of_nat (List.length (honor_log d)) + 1)
                                      user_id bonus "Daily Bonus" (Some user_id)
                                      (utc `div` 1000000)])
                                  (daily_bonus d) (loot_log d)) [] utc tz)).
  { subst r. unfold daily, bind at 1.
    rewrite can_claim_daily_answer_ok, Hcan. cbn [negb].
    unfold bind at 1. rewrite add_user_honor_cases.
    cbn [faults db utc_us tz_offset drop]. unfold claim_daily, bind, date_today.
    rewrite connect_fails. reflexivity. }
  rewrite Hr. cbn [fst snd db]. split; [done|]. split.
  { unfold balance at 1. cbn [user_honor]. by rewrite lookup_insert_eq. }
  split; [cbn [honor_log]; by rewrite fmap_app|]. split; [done|].
  rewrite can_claim_daily_answer. cbn [fst daily_bonus]. by rewrite Hcan.
Qed.

Lemma daily_claim_not_recorded_witness :
  daily_bonus init_db !! 7 ≠ Some (local_day 0 0)
  ∧ (daily 7 300 (mkWorld init_db [false; false; false; false; true] 0 0)).1
    = Raise StoreUnavailable.
Proof.
  assert (H : daily_bonus init_db !! 7 ≠ Some (local_day 0 0)) by (vm_compute; discriminate).
  split; [exact H|].
  exact (proj1 (daily_claim_not_recorded init_db 7 300 0 0 H)).
Defined.

(** ** The lootbox *)

Lemma can_open_lootbox_answer_ok (d : Db) (user_id utc tz : Z) (fs : list bool) :
  can_open_lootbox user_id (mkWorld d (false :: fs) utc tz)
  = (Ok match latest_loot_ts user_id (loot_log d) with
        | None => true
        | Some ts => 86400 * 1000000 <=? utc + tz * 1000000 - ts * 1000000
        end,
     mkWorld d fs utc tz).
Proof.
  unfold can_open_lootbox, bind. rewrite connect_ok. cbv beta. cbn [fst snd].
  by destruct (latest_loot_ts user_id (loot_log d)).
Qed.

Lemma log_lootbox_quiet (d : Db) (user_id reward utc tz : Z) :
  log_lootbox user_id reward (mkWorld d [] utc tz)
  = (Ok tt, mkWorld (mkDb (user_honor d) (honor_log d) (daily_bonus d)
                          (loot_log d ++
                           [mkLootLogRow (Z.of_nat (List.length (loot_log d)) + 1)
                                         user_id (utc `div` 1000000) reward]))
                    [] utc tz).
Proof. unfold log_lootbox, bind, CURRENT_TIMESTAMP. by rewrite connect_quiet. Qed.

(** What [lootbox] does while the store answers: nothing when
    [can_open_lootbox] says no, otherwise it credits the reward, writes the
    ledger row and the loot row. *)
Lemma lootbox_quiet (d : Db) (user_id reward utc tz : Z) :
  lootbox user_id reward (mkWorld d [] utc tz)
  = (Ok tt,
     mkWorld
       (if match latest_loot_ts user_id (loot_log d) with
           | None => true
           | Some ts => 86400 * 1000000 <=? utc + tz * 1000000 - ts * 1000000
           end
        then mkDb (<[user_id := clamp (balance d user_id + reward)]> (user_honor d))
                  (honor_log d ++
                   [mkHonorLogRow (Z.of_nat (List.length (honor_log d)) + 1) user_id
                                  reward "Lootbox" (Some user_id) (utc `div` 1000000)])
                  (daily_bonus d)
                  (loot_log d ++
                   [mkLootLogRow (Z.of_nat (List.length (loot_log d)) + 1)
                                 user_id (utc `div` 1000000) reward])
        else d)
       [] utc tz).
Proof.
  unfold lootbox. unfold bind at 1. rewrite can_open_lootbox_answer.
  destruct (match latest_loot_ts user_id (loot_log d) with
            | None => true
            | Some ts => _
            end); cbn [negb]; [|by destruct d].
  unfold bind at 1. rewrite add_user_honor_cases.
  cbn [faults db utc_us tz_offset drop]. unfold bind at 1.
  rewrite log_lootbox_quiet. reflexivity.
Qed.

(** While the store answers, a lootbox that was opened stays closed as long
    as the local clock is less than 86400 seconds past the stored second of
    the opening: a second run of [lootbox] changes nothing. *)
Theorem lootbox_once_per_window (d : Db) (user_id reward1 reward2 utc1 tz1 utc2 tz2 : Z) :
  (can_open_lootbox user_id (mkWorld d [] utc1 tz1)).1 = Ok true →
  utc2 + tz2 * 1000000 - (utc1 `div` 1000000) * 1000000 < 86400 * 1000000 →
  let d1 := db (lootbox user_id reward1 (mkWorld d [] utc1 tz1)).2 in
  loot_log d1 = loot_log d ++
                [mkLootLogRow (Z.of_nat (List.length (loot_log d)) + 1) user_id
                              (utc1 `div` 1000000) reward1]
  ∧ db (lootbox user_id reward2 (mkWorld d1 [] utc2 tz2)).2 = d1.
Proof.
  intros Hcan Hwin d1. subst d1.
  rewrite can_open_lootbox_answer in Hcan. cbn [fst] in Hcan.
  injection Hcan as Hcan.
  rewrite (lootbox_quiet d), Hcan. cbn [snd db loot_log]. split; [done|].
  rewrite lootbox_quiet. cbn [snd db loot_log].
  destruct (latest_loot_ts_snoc user_id (utc1 `div` 1000000) (loot_log d)
              (Z.of_nat (List.length (loot_log d)) + 1) reward1) as (t & -> & Ht).
  destruct (Z.leb_spec (86400 * 1000000) (utc2 + tz2 * 1000000 - t * 1000000));
    [lia|done].
Qed.

Lemma lootbox_once_per_window_witness :
  (can_open_lootbox 7 (mkWorld init_db [] 500000 0)).1 = Ok true
  ∧ 86399000000 + 0 * 1000000 - (500000 `div` 1000000) * 1000000 < 86400 * 1000000
  ∧ balance (db (lootbox 7 5000
                   (mkWorld (db (lootbox 7 50 (mkWorld init_db [] 500000 0)).2)
                            [] 86399000000 0)).2) 7 = 50.
Proof.
  assert (H1 : (can_open_lootbox 7 (mkWorld init_db [] 500000 0)).1 = Ok true)
    by reflexivity.
  assert (H2 : 86399000000 + 0 * 1000000 - (500000 `div` 1000000) * 1000000
               < 86400 * 1000000) by (vm_compute; reflexivity).
  split; [exact H1|]. split; [exact H2|].
  rewrite (proj2 (lootbox_once_per_window init_db 7 50 5000 500000 0 86399000000 0
                    H1 H2)).
  reflexivity.
Defined.

(** When writing the loot row fails, the reward is already credited and
    logged, no loot row is written, and the lootbox opens again at once. *)
Theorem lootbox_opening_not_recorded (d : Db) (user_id reward utc tz : Z) :
  (can_open_lootbox user_id (mkWorld d [] utc tz)).1 = Ok true →
  let r := lootbox user_id reward
             (mkWorld d [false; false; false; false; true] utc tz) in
  r.1 = Raise StoreUnavailable
  ∧ balance (db r.2) user_id = clamp (balance d user_id + reward)
  ∧ hl_delta <$> honor_log (db r.2) = (hl_delta <$> honor_log d) ++ [reward]
  ∧ loot_log (db r.2) = loot_log d
  ∧ (can_open_lootbox user_id (mkWorld (db r.2) [] utc tz)).1 = Ok true.
Proof.
  intros Hcan r.
  rewrite can_open_lootbox_answer in Hcan. cbn [fst] in Hcan.
  injection Hcan as Hcan.
  assert (Hr : r = (Raise StoreUnavailable,
                    mkWorld (mkDb (<[user_id := clamp (balance d user_id + reward)]>
                                     (user_honor d))
                                  (honor_log d ++
                                   [mkHonorLogRow
                                      (Z.of_nat (List.length (honor_log d)) + 1)
                                      user_id reward "Lootbox" (Some user_id)
                                      (utc `div` 1000000)])
                                  (daily_bonus d) (loot_log d)) [] utc tz)).
  { subst r. unfold lootbox, bind at 1.
    rewrite can_open_lootbox_answer_ok, Hcan. cbn [negb].
    unfold bind at 1. rewrite add_user_honor_cases.
    cbn [faults db utc_us tz_offset drop]. unfold log_lootbox, bind, CURRENT_TIMESTAMP.
    rewrite connect_fails. reflexivity. }
  rewrite Hr. cbn [fst snd db]. split; [done|]. split.
  { unfold balance at 1. cbn [user_honor]. by rewrite lookup_insert_eq. }
  split; [cbn [honor_log]; by rewrite fmap_app|]. split; [done|].
  rewrite can_open_lootbox_answer. cbn [fst loot_log]. by rewrite Hcan.
Qed.

Lemma lootbox_opening_not_recorded_witness :
  (can_open_lootbox 7 (mkWorld init_db [] 0 0)).1 = Ok true
  ∧ (lootbox 7 50 (mkWorld init_db [false; false; false; false; true] 0 0)).1
    = Raise StoreUnavailable.
Proof.
  assert (H : (can_open_lootbox 7 (mkWorld init_db [] 0 0)).1 = Ok true)
    by reflexivity.
  split; [exact H|].
  exact (proj1 (lootbox_opening_not_recorded init_db 7 50 0 0 H)).
Defined.

(** ** Counting with an empty query *)

(** The empty query matches every reason: the count is the number of the
    user's ledger entries. *)
Theorem get_achievement_count_empty_query (d : Db) (user_id utc tz : Z) :
  (get_achievement_count user_id "" (mkWorld d [] utc tz)).1
  = Ok (Z.of_nat (List.length
                    (List.filter (λ row, hl_user_id row =? user_id) (honor_log d)))).
Proof.
  unfold get_achievement_count. rewrite connect_quiet. cbv beta. cbn [fst].
  do 3 f_equal. apply List.filter_ext. intros row.
  change ("%" ++ "" ++ "%")%string with (String "%" "%").
  by rewrite like_percent, like_percent_only, andb_true_r.
Qed.

(** ** What the handlers write into the ledger *)

Lemma handlers_write_reasons (evs : list Event) (fs : list bool) (utc tz : Z) :
  forallb is_command evs = true →
  ∀ row, In row (honor_log (db (run evs (mkWorld init_db fs utc tz)))) →
         handler_reason (flagged_words evs) (hl_reason row).
Proof.
  intros Hcmd.
  pose (P := λ row, handler_reason (flagged_words evs) (hl_reason row)).
  pose (R := λ d d' : Db, (∀ row, In row (honor_log d) → P row) →
                          ∀ row, In row (honor_log d') → P row).
  assert (Hrun : R init_db (db (run evs (mkWorld init_db fs utc tz)))).
  { apply (steps_run R) with
      (touch := λ _, True)
      (entry := λ _ _ reason _, handler_reason (flagged_words evs) reason)
      (w := mkWorld init_db fs utc tz); unfold R.
    - done.
    - intros d1 d2 d3 H1 H2 H. auto.
    - done.
    - intros d u delta reason by_ ts He H row. simpl.
      rewrite in_app_iff. intros [Hin|[<-|[]]]; [by apply H|]. exact He.
    - done.
    - done.
    - apply Forall_forall. intros ev Hev. split; [done|].
      intros u delta reason by_ Hcall.
      assert (Hc : is_command ev = true).
      { rewrite forallb_forall in Hcmd. apply Hcmd. by apply list_elem_of_In. }
      destruct ev as [author [] [[|c s]|]|user []|user []|user []|? ?|? ?|? ? ? ?|? ?|? ? ?];
        simpl in Hcall, Hc; try discriminate; injection Hcall as <- <- <- <-;
        unfold handler_reason; auto.
      right. right. right. exists (String c s). split; [|done].
      apply list_elem_of_In. apply list_elem_of_omap.
      exists (EvMessage author false (Some (String c s))). done. }
  intros row Hin. apply (Hrun ltac:(by intros ? [])). exact Hin.
Qed.

(** From the fresh database on, a run of handlers leaves only four kinds of
    reasons in the ledger: the empty reason (bless, thanks, helped),
    "Daily Bonus", "Lootbox" and "Beleidigung: " followed by a word
    [is_insult] reported. *)
Theorem ledger_reasons_of_handlers (evs : list Event) (fs : list bool) (utc tz : Z) :
  forallb is_command evs = true →
  ∀ row, In row (honor_log (db (run evs (mkWorld init_db fs utc tz)))) →
         handler_reason (flagged_words evs) (hl_reason row).
Proof. apply handlers_write_reasons. Qed.

Lemma ledger_reasons_of_handlers_witness :
  let evs := [EvHelped 7 false; EvMessage 7 false (Some "fool"%string); EvDaily 7 200] in
  forallb is_command evs = true
  ∧ ∀ row, In row (honor_log (db (run evs (mkWorld init_db [] 0 0)))) →
           handler_reason ["fool"%string] (hl_reason row).
Proof.
  intros evs.
  assert (H : forallb is_command evs = true) by reflexivity.
  split; [exact H|].
  exact (ledger_reasons_of_handlers evs [] 0 0 H).
Defined.

Lemma get_achievement_count_quiet (d : Db) (user_id : Z) (query : string) (utc tz : Z) :
  get_achievement_count user_id query (mkWorld d [] utc tz)
  = (Ok (Z.of_nat (List.length
           (List.filter (λ row, (hl_user_id row =? user_id)
                                && like ("%" ++ query ++ "%") (hl_reason row))
                        (honor_log d)))),
     mkWorld d [] utc tz).
Proof. unfold get_achievement_count. by rewrite connect_quiet. Qed.

Lemma filter_nothing {A} (f : A → bool) (l : list A) :
  (∀ x, In x l → f x = false) → List.filter f l = [].
Proof.
  induction l as [|x l IH]; intros H; simpl; [done|].
  rewrite (H x (or_introl eq_refl)). apply IH. intros y Hy. apply H. by right.
Qed.

(** The queries of the achievements match none of the reasons the handlers
    write, unless a reported word brings the text along. *)
Lemma handler_reason_not_counted (words : list string) (q reason : string) :
  In q ["helped"; "bless"; "insult"]%string →
  (∀ word, In word words → contains q (lower ("Beleidigung: " ++ word)) = false) →
  handler_reason words reason →
  like ("%" ++ q ++ "%") reason = false.
Proof.
  intros Hq Hwords Hr.
  assert (Hlit : no_wildcard q = true ∧ lower q = q).
  { simpl in Hq. destruct Hq as [<-|[<-|[<-|[]]]]; by vm_compute. }
  destruct Hlit as [Hnw Hlow].
  rewrite like_contains, Hlow by done.
  destruct Hr as [->|[->|[->|(word & Hin & ->)]]]; [| | |by apply Hwords];
    simpl in Hq; destruct Hq as [<-|[<-|[<-|[]]]]; by vm_compute.
Qed.

(** After a run of handlers in which no reported word contains "helped",
    "bless" or "insult" (letter case apart), [get_achievements] shows
    "Nie beleidigt" for every user, penalised or not, never "100x geholfen"
    or "50x gesegnet", however often /helped and /bless ran, and
    "Platz 1 Leaderboard" for the user [is_top1] names. *)
Theorem achievements_after_handlers
    (order_by : ∀ A : Type, (A → Z) → bool → list A → list A)
    (evs : list Event) (fs : list bool) (utc tz utc' tz' user_id : Z) :
  forallb is_command evs = true →
  (∀ word q, In word (flagged_words evs) → In q ["helped"; "bless"; "insult"]%string →
             contains q (lower ("Beleidigung: " ++ word)) = false) →
  let w := mkWorld (db (run evs (mkWorld init_db fs utc tz))) [] utc' tz' in
  (get_achievements order_by user_id w).1
  = Ok match (is_top1 order_by user_id w).1 with
       | Ok (Some true) => "🧘 Nie beleidigt, 👑 Platz 1 Leaderboard"%string
       | _ => "🧘 Nie beleidigt"%string
       end.
Proof.
  intros Hcmd Hwords w. subst w.
  pose proof (handlers_write_reasons evs fs utc tz Hcmd) as Hreasons.
  remember (db (run evs (mkWorld init_db fs utc tz))) as d eqn:Hd. clear Hd.
  assert (Hcount : ∀ q, In q ["helped"; "bless"; "insult"]%string →
            get_achievement_count user_id q (mkWorld d [] utc' tz')
            = (Ok 0, mkWorld d [] utc' tz')).
  { intros q Hq. rewrite get_achievement_count_quiet.
    rewrite filter_nothing; [done|]. intros row Hin.
    rewrite (handler_reason_not_counted (flagged_words evs) q (hl_reason row));
      [by rewrite andb_false_r|done| |by apply Hreasons].
    intros word Hword. by apply Hwords. }
  set (w := mkWorld d [] utc' tz') in *.
  assert (Hcond : ∀ q (test : Z → bool), In q ["helped"; "bless"; "insult"]%string →
            bind (get_achievement_count user_id q) (λ c, ret (test c)) w
            = (Ok (test 0), w)).
  { intros q test Hq. unfold bind. by rewrite (Hcount q Hq). }
  assert (Htop : ∃ top, is_top1 order_by user_id w = (Ok top, w)).
  { unfold is_top1, w. rewrite connect_quiet. by eexists. }
  destruct Htop as (top & Htop). rewrite Htop. cbn [fst].
  unfold get_achievements, ACHIEVEMENTS, unlocked_of.
  unfold bind at 1. unfold bind at 1.
  rewrite (Hcond "helped"%string) by (simpl; auto).
  unfold bind at 1. unfold bind at 1.
  rewrite (Hcond "bless"%string) by (simpl; auto).
  unfold bind at 1. unfold bind at 1.
  rewrite (Hcond "insult"%string) by (simpl; auto).
  unfold bind. rewrite Htop. cbn [ret fst].
  by destruct top as [[]|].
Qed.

Lemma achievements_after_handlers_witness :
  let evs := [EvHelped 7 false; EvHelped 7 false;
              EvMessage 7 false (Some "fool"%string)] in
  (get_achievements (λ A key desc, sorted key desc) 7
     (mkWorld (db (run evs (mkWorld init_db [] 0 0))) [] 0 0)).1
  = Ok "🧘 Nie beleidigt, 👑 Platz 1 Leaderboard"%string.
Proof.
  intros evs.
  assert (H1 : forallb is_command evs = true) by reflexivity.
  assert (H2 : ∀ word q, In word (flagged_words evs) →
                 In q ["helped"; "bless"; "insult"]%string →
                 contains q (lower ("Beleidigung: " ++ word)) = false).
  { intros word q [<-|[]] [<-|[<-|[<-|[]]]]; reflexivity. }
  rewrite (achievements_after_handlers (λ A key desc, sorted key desc)
             evs [] 0 0 0 0 7 H1 H2).
  reflexivity.
Defined.

(** ** The ordered queries *)

Lemma insert_by_Permutation {A} (before_ : A → A → bool) (x : A) (l : list A) :
  insert_by before_ x l ≡ₚ x :: l.
Proof.
  induction l as [|y l IH]; simpl; [done|].
  destruct (before_ x y); [done|]. rewrite IH. apply Permutation_swap.
Qed.

Lemma sorted_Permutation {A} (key : A → Z) (reverse : bool) (l : list A) :
  sorted key reverse l ≡ₚ l.
Proof.
  unfold sorted. induction l as [|x l IH]; simpl; [done|].
  by rewrite insert_by_Permutation, IH.
Qed.

(** The stable sort is one way to order rows. *)
Lemma sorted_orders : orders (λ A key desc, sorted key desc).
Proof.
  intros A key desc rows. split;
    [apply sorted_Permutation|apply sorted_StronglySorted].
Qed.

Lemma StronglySorted_take {A} (R : relation A) (n : nat) (l : list A) :
  StronglySorted R l → StronglySorted R (take n l).
Proof.
  intros H. rewrite <- (take_drop n l) in H.
  by apply StronglySorted_app in H as (_ & H & _).
Qed.

(** [ORDER BY ... LIMIT n]: the rows selected. *)
Lemma limit_order_by
    (order_by : ∀ A : Type, (A → Z) → bool → list A → list A)
    {A} (key : A → Z) (desc : bool) (n : Z) (rows : list A) :
  orders order_by →
  let sel := limit n (order_by A key desc rows) in
  List.length sel
  = (if n <? 0 then List.length rows
     else (Z.to_nat n `min` List.length rows)%nat)
  ∧ StronglySorted (in_order key desc) sel
  ∧ (∀ x, x ∈ sel → x ∈ rows)
  ∧ (NoDup rows → NoDup sel)
  ∧ (∀ x y, x ∈ sel → y ∈ rows → y ∉ sel → in_order key desc x y).
Proof.
  intros Hord sel. destruct (Hord A key desc rows) as [Hperm Hsort].
  subst sel. unfold limit. destruct (n <? 0).
  - split; [by rewrite Hperm|]. split; [done|].
    split; [intros x; by rewrite Hperm|]. split; [by rewrite Hperm|].
    intros x y _ Hy Hny. destruct Hny. by rewrite Hperm.
  - split; [by rewrite length_take, Hperm|].
    split; [by apply StronglySorted_take|].
    split; [intros x Hx%elem_of_take; destruct Hx as (i & Hi & _);
            rewrite <- Hperm; by eapply list_elem_of_lookup_2|].
    split.
    + intros Hnd. rewrite <- Hperm in Hnd.
      rewrite <- (take_drop (Z.to_nat n)) in Hnd.
      by apply NoDup_app in Hnd as (Hnd & _).
    + intros x y Hx Hy Hny. rewrite <- Hperm in Hy.
      rewrite <- (take_drop (Z.to_nat n) (order_by A key desc rows)) in Hy, Hsort.
      apply elem_of_app in Hy as [Hy|Hy]; [done|].
      by eapply StronglySorted_app_1_elem_of.
Qed.

(** [is_top1] answers [None] on an empty table and otherwise tells whether
    the user owns the account the query puts first: an account no other
    account exceeds.  Who is put first among equal balances is left to the
    engine; a user without an account is never first. *)
Theorem is_top1_highest_account
    (order_by : ∀ A : Type, (A → Z) → bool → list A → list A)
    (d : Db) (user_id utc tz : Z) :
  orders order_by →
  match (is_top1 order_by user_id (mkWorld d [] utc tz)).1 with
  | Ok None => user_honor d = ∅
  | Ok (Some true) =>
      ∃ b, user_honor d !! user_id = Some b
           ∧ ∀ u b', user_honor d !! u = Some b' → b' ≤ b
  | Ok (Some false) =>
      ∃ u b, u ≠ user_id ∧ user_honor d !! u = Some b
             ∧ ∀ u' b', user_honor d !! u' = Some b' → b' ≤ b
  | Raise _ => False
  end.
Proof.
  intros Hord. unfold is_top1. rewrite connect_quiet. cbv beta. cbn [fst].
  destruct (Hord _ snd true (map_to_list (user_honor d))) as [Hperm Hsort].
  unfold limit. change (1 <? 0) with false. change (Z.to_nat 1) with 1%nat.
  cbv iota.
  destruct (order_by _ snd true (map_to_list (user_honor d))) as [|[u b] rest].
  - cbn. symmetry in Hperm. apply Permutation_nil_r in Hperm.
    by apply map_to_list_empty_iff.
  - cbn [take head fst].
    assert (Hu : user_honor d !! u = Some b).
    { apply elem_of_map_to_list. rewrite <- Hperm. by left. }
    assert (Hmax : ∀ u' b', user_honor d !! u' = Some b' → b' ≤ b).
    { intros u' b' H'. apply elem_of_map_to_list in H'. rewrite <- Hperm in H'.
      apply StronglySorted_inv in Hsort as [_ Hall].
      apply elem_of_cons in H' as [[= -> ->]|H']; [lia|].
      rewrite List.Forall_forall in Hall. apply list_elem_of_In in H'.
      apply Hall in H'. unfold in_order in H'. simpl in H'. lia. }
    destruct (Z.eqb_spec u user_id) as [->|Hne].
    + by exists b.
    + by exists u, b.
Qed.

(** Two accounts share the highest balance: one of them is put first, and
    the other user is told there is an account no account exceeds. *)
Lemma is_top1_highest_account_witness :
  let d := mkDb {[7 := 500; 8 := 500; 9 := -500]} [] ∅ [] in
  orders (λ A key desc, sorted key desc)
  ∧ (is_top1 (λ A key desc, sorted key desc) 8 (mkWorld d [] 0 0)).1 = Ok (Some false)
  ∧ ∃ u b, u ≠ 8 ∧ user_honor d !! u = Some b
           ∧ ∀ u' b', user_honor d !! u' = Some b' → b' ≤ b.
Proof.
  intros d.
  assert (E : (is_top1 (λ A key desc, sorted key desc) 8 (mkWorld d [] 0 0)).1
              = Ok (Some false)) by (vm_compute; reflexivity).
  split; [exact sorted_orders|]. split; [exact E|].
  pose proof (is_top1_highest_account (λ A key desc, sorted key desc) d 8 0 0
                sorted_orders) as H.
  rewrite E in H. exact H.
Defined.

(** [get_leaderboard]: both lists have [top] entries, or all accounts when
    there are fewer or [top] is negative; the first is in descending and the
    second in ascending order of balance; each entry is an account, no
    account appears twice in a list, and no account left out of the first
    (second) list has a greater (smaller) balance than one in it. *)
Theorem get_leaderboard_ranks
    (order_by : ∀ A : Type, (A → Z) → bool → list A → list A)
    (d : Db) (top utc tz : Z) :
  orders order_by →
  ∃ top_users flop_users,
    (get_leaderboard order_by top (mkWorld d [] utc tz)).1
    = Ok (top_users, flop_users)
    ∧ List.length top_users
      = (if top <? 0 then size (user_honor d)
         else (Z.to_nat top `min` size (user_honor d))%nat)
    ∧ List.length flop_users = List.length top_users
    ∧ StronglySorted (λ a b, b.2 ≤ a.2) top_users
    ∧ StronglySorted (λ a b, a.2 ≤ b.2) flop_users
    ∧ NoDup top_users ∧ NoDup flop_users
    ∧ (∀ u b, (u, b) ∈ top_users ∨ (u, b) ∈ flop_users → user_honor d !! u = Some b)
    ∧ (∀ u b u' b', (u, b) ∈ top_users → user_honor d !! u' = Some b' →
                    (u', b') ∉ top_users → b' ≤ b)
    ∧ (∀ u b u' b', (u, b) ∈ flop_users → user_honor d !! u' = Some b' →
                    (u', b') ∉ flop_users → b ≤ b').
Proof.
  intros Hord. unfold get_leaderboard. rewrite connect_quiet. cbv beta zeta.
  cbn [fst].
  destruct (limit_order_by order_by snd true top (map_to_list (user_honor d)) Hord)
    as (Hlen1 & Hs1 & Hin1 & Hnd1 & Hout1).
  destruct (limit_order_by order_by snd false top (map_to_list (user_honor d)) Hord)
    as (Hlen2 & Hs2 & Hin2 & Hnd2 & Hout2).
  eexists _, _. split; [reflexivity|].
  rewrite length_map_to_list in Hlen1, Hlen2.
  split; [exact Hlen1|]. split; [by rewrite Hlen1, Hlen2|].
  split; [exact Hs1|]. split; [exact Hs2|].
  split; [apply Hnd1, NoDup_map_to_list|]. split; [apply Hnd2, NoDup_map_to_list|].
  split.
  { intros u b [H|H]; apply elem_of_map_to_list; [by apply Hin1|by apply Hin2]. }
  split.
  - intros u b u' b' Hx Hy Hny. apply elem_of_map_to_list in Hy.
    apply (Hout1 (u, b) (u', b') Hx Hy Hny).
  - intros u b u' b' Hx Hy Hny. apply elem_of_map_to_list in Hy.
    apply (Hout2 (u, b) (u', b') Hx Hy Hny).
Qed.

(** The scenario of three accounts with balances 500, -500 and 0. *)
Lemma get_leaderboard_ranks_witness :
  let d := mkDb {[1 := 500; 2 := -500; 3 := 0]} [] ∅ [] in
  orders (λ A key desc, sorted key desc)
  ∧ (get_leaderboard (λ A key desc, sorted key desc) 2 (mkWorld d [] 0 0)).1
    = Ok ([(1, 500); (3, 0)], [(2, -500); (3, 0)])
  ∧ ∀ u b u' b', (u, b) ∈ [(1, 500); (3, 0)] → user_honor d !! u' = Some b' →
                 (u', b') ∉ [(1, 500); (3, 0)] → b' ≤ b.
Proof.
  intros d.
  assert (E : (get_leaderboard (λ A key desc, sorted key desc) 2 (mkWorld d [] 0 0)).1
              = Ok ([(1, 500); (3, 0)], [(2, -500); (3, 0)]))
    by (vm_compute; reflexivity).
  split; [exact sorted_orders|]. split; [exact E|].
  destruct (get_leaderboard_ranks (λ A key desc, sorted key desc) d 2 0 0
              sorted_orders) as (tops & flops & H & _ & _ & _ & _ & _ & _ & _ & Hout & _).
  rewrite E in H. injection H as <- <-. exact Hout.
Defined.

(** [get_honor_log] and [get_honor_log_admin] return columns of the same
    rows: rows of the user's ledger, the newest first, [limit_] of them (all
    when the user has fewer or [limit_] is negative), and no row left out is
    newer than one returned. *)
Theorem get_honor_log_newest_first
    (order_by : ∀ A : Type, (A → Z) → bool → list A → list A)
    (d : Db) (user_id limit_ utc tz : Z) :
  orders order_by →
  ∃ rows,
    (get_honor_log order_by user_id limit_ (mkWorld d [] utc tz)).1
    = Ok ((λ row, (hl_delta row, hl_reason row, hl_ts row)) <$> rows)
    ∧ (get_honor_log_admin order_by user_id limit_ (mkWorld d [] utc tz)).1
      = Ok ((λ row, (hl_delta row, hl_reason row, hl_by_user row, hl_ts row)) <$> rows)
    ∧ (∀ row, row ∈ rows → row ∈ honor_log d ∧ hl_user_id row = user_id)
    ∧ StronglySorted (λ a b, hl_ts b ≤ hl_ts a) rows
    ∧ List.length rows
      = (let n := List.length (List.filter (λ row, hl_user_id row =? user_id)
                                           (honor_log d)) in
         if limit_ <? 0 then n else (Z.to_nat limit_ `min` n)%nat)
    ∧ (∀ row other, row ∈ rows → other ∈ honor_log d → hl_user_id other = user_id →
                    other ∉ rows → hl_ts other ≤ hl_ts row).
Proof.
  intros Hord. unfold get_honor_log, get_honor_log_admin.
  rewrite !connect_quiet. cbv beta. cbn [fst].
  destruct (limit_order_by order_by hl_ts true limit_
              (List.filter (λ row, hl_user_id row =? user_id) (honor_log d)) Hord)
    as (Hlen & Hs & Hin & _ & Hout).
  eexists. split; [reflexivity|]. split; [reflexivity|].
  split.
  { intros row Hrow%Hin. apply list_elem_of_In, filter_In in Hrow as [Hrow Hu].
    split; [by apply list_elem_of_In|by apply Z.eqb_eq]. }
  split; [exact Hs|]. split; [exact Hlen|].
  intros row other Hrow Hother Hu Hnot.
  apply (Hout row other Hrow); [|done].
  apply list_elem_of_In, filter_In. split; [by apply list_elem_of_In|].
  by apply Z.eqb_eq.
Qed.

Lemma get_honor_log_newest_first_witness :
  let d := mkDb ∅ [mkHonorLogRow 1 7 20 "" None 100;
                   mkHonorLogRow 2 8 30 "" None 200;
                   mkHonorLogRow 3 7 300 "Daily Bonus" (Some 7) 300] ∅ [] in
  orders (λ A key desc, sorted key desc)
  ∧ (get_honor_log (λ A key desc, sorted key desc) 7 1 (mkWorld d [] 0 0)).1
    = Ok [(300, "Daily Bonus"%string, 300)]
  ∧ ∃ rows,
      (get_honor_log (λ A key desc, sorted key desc) 7 1 (mkWorld d [] 0 0)).1
      = Ok ((λ row, (hl_delta row, hl_reason row, hl_ts row)) <$> rows)
      ∧ List.length rows = 1%nat.
Proof.
  intros d. split; [exact sorted_orders|]. split; [vm_compute; reflexivity|].
  destruct (get_honor_log_newest_first (λ A key desc, sorted key desc) d 7 1 0 0
              sorted_orders) as (rows & H & _ & _ & _ & Hlen & _).
  exists rows. split; [exact H|]. rewrite Hlen. reflexivity.
Defined.

(** ** Ranks on any table *)

Lemma get_rank_cases (RANKS : list RankTier) (honor : Z) :
  match RANKS with
  | [] => get_rank RANKS honor = Raise IndexError
          ∧ get_progress_bar RANKS honor = Raise IndexError
  | r0 :: _ =>
      ∃ r, get_rank RANKS honor = Ok (name r, emoji r, color r) ∧ In r RANKS
           ∧ ((threshold r ≤ honor
               ∧ ∀ r', In r' RANKS → threshold r' ≤ honor → threshold r' ≤ threshold r)
              ∨ ((∀ r', In r' RANKS → honor < threshold r') ∧ r = r0))
  end.
Proof.
  destruct RANKS as [|r0 rest] eqn:HR; [done|]. rewrite <- HR.
  destruct (List.find (λ r, threshold r <=? honor) RANKS) as [r1|] eqn:Hf.
  - apply find_some in Hf as [Hin1 Hle1%Z.leb_le].
    destruct (get_rank_greatest_threshold RANKS honor r1 Hin1 Hle1)
      as (r & Hget & Hin & Hle & Hmax).
    exists r. split; [done|]. split; [done|]. by left.
  - assert (Hall : ∀ r, In r RANKS → honor < threshold r).
    { intros r Hin. eapply find_none in Hf; [|exact Hin]. by apply Z.leb_gt in Hf. }
    exists r0. split; [by eapply get_rank_fallback|].
    split; [rewrite HR; by left|]. by right.
Qed.

(** Whatever the table: on an empty table [get_rank] and [get_progress_bar]
    raise [IndexError]; otherwise a balance that reaches some threshold gets
    a tier with the greatest threshold it reaches, and a balance below every
    threshold gets the entry the table lists first. *)
Theorem get_rank_on_any_table (RANKS : list RankTier) (honor : Z) :
  match RANKS with
  | [] => get_rank RANKS honor = Raise IndexError
          ∧ get_progress_bar RANKS honor = Raise IndexError
  | r0 :: _ =>
      ∃ r, get_rank RANKS honor = Ok (name r, emoji r, color r) ∧ In r RANKS
           ∧ ((threshold r ≤ honor
               ∧ ∀ r', In r' RANKS → threshold r' ≤ honor → threshold r' ≤ threshold r)
              ∨ ((∀ r', In r' RANKS → honor < threshold r') ∧ r = r0))
  end.
Proof. apply get_rank_cases. Qed.

Lemma get_rank_on_any_table_witness :
  get_rank [] 10 = Raise IndexError
  ∧ get_progress_bar [] 10 = Raise IndexError.
Proof. exact (get_rank_on_any_table [] 10). Defined.

(** On a table that lists a lowest tier first, more honor never gives a
    tier with a lower threshold. *)
Theorem get_rank_monotone (RANKS : list RankTier) (r0 : RankTier)
    (rest : list RankTier) (honor1 honor2 : Z) :
  RANKS = r0 :: rest → (∀ r, In r RANKS → threshold r0 ≤ threshold r) →
  honor1 ≤ honor2 →
  ∃ r1 r2, get_rank RANKS honor1 = Ok (name r1, emoji r1, color r1)
           ∧ get_rank RANKS honor2 = Ok (name r2, emoji r2, color r2)
           ∧ In r1 RANKS ∧ In r2 RANKS ∧ threshold r1 ≤ threshold r2.
Proof.
  intros -> Hlow Hle.
  pose proof (get_rank_cases (r0 :: rest) honor1) as H1.
  pose proof (get_rank_cases (r0 :: rest) honor2) as H2.
  destruct H1 as (r1 & Hg1 & Hin1 & Hc1), H2 as (r2 & Hg2 & Hin2 & Hc2).
  exists r1, r2. repeat (split; [done|]).
  destruct Hc1 as [[Hr1 _]|[_ ->]]; [|by apply Hlow].
  destruct Hc2 as [[_ Hmax2]|[Hall2 _]].
  - apply Hmax2; [done|lia].
  - specialize (Hall2 r1 Hin1). lia.
Qed.

Lemma get_rank_monotone_witness :
  ∃ r1 r2, get_rank scenario_ranks 999 = Ok (name r1, emoji r1, color r1)
           ∧ get_rank scenario_ranks 5000 = Ok (name r2, emoji r2, color r2)
           ∧ In r1 scenario_ranks ∧ In r2 scenario_ranks
           ∧ threshold r1 ≤ threshold r2.
Proof.
  apply (get_rank_monotone scenario_ranks (mkRankTier 0 "Peasant" "o" 9807270)
           [mkRankTier 1000 "Knight" "+" 3447003;
            mkRankTier 5000 "Lord" "*" 15844367] 999 5000).
  - reflexivity.
  - intros r [<-|[<-|[<-|[]]]]; simpl; lia.
  - lia.
Defined.

(** ** Progress between two tiers *)





(** Outside the tiers the bar is empty: below every threshold the span is 0
    and the position negative, measured from a lowest tier, which is also
    shown as the next rank; at or above every threshold the span is 0 and
    the next rank shown is a highest tier. *)
Theorem get_progress_bar_outside (RANKS : list RankTier) (honor : Z) :
  RANKS ≠ [] →
  ∃ p, get_progress_bar RANKS honor = Ok p
       ∧ ((∀ r, In r RANKS → honor < threshold r) →
          In (next_rank p) RANKS
          ∧ (∀ r, In r RANKS → threshold (next_rank p) ≤ threshold r)
          ∧ span p = 0 ∧ pos p = honor - threshold (next_rank p) ∧ pos p < 0
          ∧ percent p = 0%Q)
       ∧ ((∀ r, In r RANKS → threshold r ≤ honor) →
          In (next_rank p) RANKS
          ∧ (∀ r, In r RANKS → threshold r ≤ threshold (next_rank p))
          ∧ span p = 0 ∧ pos p = honor - threshold (next_rank p) ∧ 0 ≤ pos p
          ∧ percent p = 0%Q).
Proof.
  intros Hne. unfold get_progress_bar.
  pose proof (sorted_StronglySorted threshold false RANKS) as Hs.
  pose proof (sorted_In threshold false) as HIn.
  destruct (sorted threshold false RANKS) as [|first rs] eqn:HS.
  { by apply sorted_nil_inv in HS. }
  destruct (last (first :: rs)) as [final|] eqn:Hlast;
    [|by apply last_None in Hlast].
  cbn [head].
  assert (Hfirst : In first RANKS) by (apply HIn; rewrite HS; by left).
  assert (Hfinal : In final RANKS).
  { apply HIn. rewrite HS. apply last_Some in Hlast as (l' & ->).
    apply in_app_iff. right. by left. }
  assert (Hlowest : ∀ r, In r RANKS → threshold first ≤ threshold r).
  { intros r Hr. apply HIn in Hr. rewrite HS in Hr.
    apply StronglySorted_inv in Hs as [_ Hall]. rewrite List.Forall_forall in Hall.
    destruct Hr as [<-|Hr]; [lia|]. apply Hall in Hr. unfold in_order in Hr. lia. }
  assert (Hhighest : ∀ r, In r RANKS → threshold r ≤ threshold final).
  { intros r Hr. apply HIn in Hr. rewrite HS in Hr.
    apply last_Some in Hlast as (l' & Hl'). rewrite Hl' in Hr, Hs.
    apply in_app_iff in Hr as [Hr|[<-|[]]]; [|lia].
    apply StronglySorted_app in Hs as (Hc & _ & _).
    specialize (Hc r final). unfold in_order in Hc.
    apply Hc; [by apply list_elem_of_In|by left]. }
  destruct (progress_scan honor (first :: rs) first final) as [prev nx] eqn:Hscan.
  assert (Hbelow : (∀ r, In r RANKS → honor < threshold r) → prev = first ∧ nx = first).
  { intros Hall. cbn [progress_scan] in Hscan.
    destruct (Z.ltb_spec honor (threshold first)) as [_|Hge];
      [by injection Hscan as <- <-|].
    specialize (Hall first Hfirst). lia. }
  assert (Habove : (∀ r, In r RANKS → threshold r ≤ honor) → prev = final ∧ nx = final).
  { intros Hall. rewrite progress_scan_above_all in Hscan.
    - rewrite Hlast in Hscan. by injection Hscan as <- <-.
    - intros r Hr. apply Hall, HIn. by rewrite HS. }
  destruct (Z.eqb_spec (threshold nx - threshold prev) 0) as [Hz|Hnz].
  - eexists. split; [reflexivity|]. cbn [percent span pos next_rank]. split.
    + intros Hall. destruct (Hbelow Hall) as [-> ->].
      specialize (Hall first Hfirst). repeat (split; [done || lia|]). done.
    + intros Hall. destruct (Habove Hall) as [-> ->].
      specialize (Hall final Hfinal). repeat (split; [done || lia|]). done.
  - unfold true_div.
    destruct (Z.eqb_spec (threshold nx - threshold prev) 0) as [|_]; [done|].
    eexists. split; [reflexivity|]. split.
    + intros Hall. destruct (Hbelow Hall) as [-> ->]. lia.
    + intros Hall. destruct (Habove Hall) as [-> ->]. lia.
Qed.

Lemma get_progress_bar_outside_witness :
  ∃ p, get_progress_bar scenario_ranks (-4) = Ok p
       ∧ span p = 0 ∧ pos p = -4 ∧ percent p = 0%Q.
Proof.
  destruct (get_progress_bar_outside scenario_ranks (-4)) as (p & Hp & Hbelow & _);
    [discriminate|].
  exists p. split; [exact Hp|].
  destruct Hbelow as (_ & _ & Hspan & Hpos & _ & Hpc).
  - intros r [<-|[<-|[<-|[]]]]; simpl; lia.
  - split; [exact Hspan|]. split; [|exact Hpc].
    rewrite Hpos. vm_compute in Hp. injection Hp as <-. reflexivity.
Defined.

(** ** The reach of check_rewards *)

(** [check_rewards] makes at most one call per entry of [REWARD_ROLES], each
    about a role of the guild named "VIP", "Elite" or "Star"; in a guild
    whose roles have distinct ids it never adds and removes the same role in
    one pass. *)
Theorem check_rewards_reach (honor : Z) (guild_roles member_roles : list Role) :
  (List.length (check_rewards honor guild_roles member_roles) ≤ 3)%nat
  ∧ (∀ rq, In rq (check_rewards honor guild_roles member_roles) →
           In (role_of rq) guild_roles
           ∧ In (role_name (role_of rq)) ["VIP"; "Elite"; "Star"]%string)
  ∧ (List.NoDup (map role_id guild_roles) →
     ∀ r r', In (AddRoles r) (check_rewards honor guild_roles member_roles) →
             In (RemoveRoles r') (check_rewards honor guild_roles member_roles) →
             role_eqb r r' = false).
Proof.
  split; [|split].
  - unfold check_rewards, REWARD_ROLES. cbn [flat_map]. rewrite !length_app.
    assert (H : ∀ e, (List.length (reward_step honor guild_roles member_roles e) ≤ 1)%nat).
    { intros [t n]. unfold reward_step. destruct (get guild_roles n); [|simpl; lia].
      destruct (_ && _); [simpl; lia|]. destruct (_ && _); simpl; lia. }
    pose proof (H (10000, "VIP"%string)). pose proof (H (50000, "Elite"%string)).
    pose proof (H (100000, "Star"%string)). cbn [List.length]. lia.
  - intros rq ([t n] & Hin & Hrq)%in_flat_map.
    apply reward_step_role, get_Some in Hrq as [Hg Hn]. split; [done|].
    rewrite Hn. apply (in_map snd) in Hin. exact Hin.
  - intros Hids r r' (t & n & Hin & Hget & Hle & _)%check_rewards_adds
      (t' & n' & Hin' & Hget' & Hlt & _)%check_rewards_removes.
    apply get_Some in Hget as [Hg Hn], Hget' as [Hg' Hn'].
    apply (distinct_names_distinct_roles guild_roles r r' Hids Hg Hg').
    rewrite Hn, Hn'. intros <-.
    unfold REWARD_ROLES in Hin, Hin'. simpl in Hin, Hin'.
    destruct Hin as [?|[?|[?|[]]]]; destruct Hin' as [?|[?|[?|[]]]];
      simplify_eq; first [lia|congruence].
Qed.

Lemma check_rewards_reach_witness :
  let vip := mkRole 10 1 "VIP" false in
  let star := mkRole 12 1 "Star" false in
  let guild_roles := [vip; mkRole 11 1 "Elite" false; star] in
  check_rewards 20000 guild_roles [star] = [AddRoles vip; RemoveRoles star]
  ∧ List.NoDup (map role_id guild_roles)
  ∧ role_eqb vip star = false.
Proof.
  intros vip star guild_roles.
  assert (H : List.NoDup (map role_id guild_roles)).
  { repeat constructor; simpl; intros H; decompose [or] H; try lia; done. }
  split; [reflexivity|]. split; [exact H|].
  apply (proj2 (proj2 (check_rewards_reach 20000 guild_roles [star])) H vip star).
  - left. reflexivity.
  - right. left. reflexivity.
Defined.

(** ** The nickname *)










(** [update_member_title] resolves the rank as [get_rank] does, and needs a
    non-empty table. *)
Lemma member_rank_get_rank (RANKS : list RankTier) (honor : Z) :
  member_rank RANKS honor
  = match get_rank RANKS honor with
    | Ok (rank_name, rank_emoji, _) => Ok (rank_name, rank_emoji)
    | Raise e => Raise e
    end.
Proof.
  unfold member_rank, get_rank. destruct (List.find _ _); [done|].
  by destruct RANKS.
Qed.



(** ** Substrings *)




Lemma prefix_refl (q : string) : String.prefix q q = true.
Proof. induction q as [|c q IH]; [done|]. by rewrite prefix_cons, Ascii.eqb_refl. Qed.





(** ** add_badword *)







(** ** is_insult *)

Lemma split_whitespace_head_prefix (s : string) (word : string) (words : list string) :
  split_whitespace s = word :: words →
  match s with
  | EmptyString => True
  | String c _ => is_space c = false → String.prefix word s = true
  end.
Proof.
  revert word words. induction s as [|c s IH]; intros word words; [done|].
  cbn [split_whitespace]. intros Hs Hc. rewrite Hc in Hs.
  destruct s as [|d s]; [injection Hs as <- <-; apply prefix_refl|].
  destruct (is_space d) eqn:Hd.
  - injection Hs as <- <-. by rewrite prefix_cons, Ascii.eqb_refl.
  - destruct (split_whitespace (String d s)) as [|w ws] eqn:Hw.
    + injection Hs as <- <-. by rewrite prefix_cons, Ascii.eqb_refl.
    + injection Hs as <- <-. rewrite prefix_cons, Ascii.eqb_refl.
      by apply (IH w ws).
Qed.

(** Every word of [s.split()] occurs in [s]. *)
Lemma split_whitespace_contains (s word : string) :
  In word (split_whitespace s) → contains word s = true.
Proof.
  revert word. induction s as [|c s IH]; intros word; [done|].
  cbn [split_whitespace contains].
  destruct (is_space c) eqn:Hc.
  { intros H. by rewrite IH, orb_true_r. }
  destruct s as [|d s].
  { intros [<-|[]]. by rewrite prefix_refl. }
  destruct (is_space d) eqn:Hd.
  - intros [<-|H].
    + by rewrite prefix_cons, Ascii.eqb_refl.
    + by rewrite IH, orb_true_r.
  - destruct (split_whitespace (String d s)) as [|w ws] eqn:Hw.
    + intros [<-|[]]. by rewrite prefix_cons, Ascii.eqb_refl.
    + intros [<-|H].
      * rewrite prefix_cons, Ascii.eqb_refl.
        by rewrite (split_whitespace_head_prefix (String d s) w ws Hw Hd).
      * rewrite IH; [by rewrite orb_true_r|]. by right.
Qed.

(** The test for whole words never decides: [is_insult] reports the first
    listed word whose normal form occurs anywhere in the cleaned message,
    inside a longer word too, and asks the service only when there is none.
    A listed word whose normal form is empty flags every message. *)
Theorem is_insult_by_substring (local_insults : list string)
    (cleaned normalized : string → string) (message : string) (api_profane : bool) :
  is_insult local_insults cleaned normalized message api_profane
  = match List.find (λ insult, contains (normalized insult) (cleaned message))
                    local_insults with
    | Some insult => Some insult
    | None => if api_profane then Some "(externe Beleidigung erkannt)"%string
              else None
    end
  ∧ (∀ insult, In insult local_insults → normalized insult = ""%string →
               ∃ reported, In reported local_insults
                           ∧ is_insult local_insults cleaned normalized message
                               api_profane = Some reported).
Proof.
  assert (Hfind : List.find
            (λ insult, existsb (String.eqb (normalized insult))
                               (split_whitespace (cleaned message))
                       || contains (normalized insult) (cleaned message))
            local_insults
          = List.find (λ insult, contains (normalized insult) (cleaned message))
                      local_insults).
  { induction local_insults as [|i l IH]; [done|]. cbn [List.find]. rewrite IH.
    destruct (contains (normalized i) (cleaned message)) eqn:Hc;
      [by rewrite orb_true_r|]. rewrite orb_false_r.
    destruct (existsb _ _) eqn:He; [|done].
    apply existsb_exists in He as (w & Hw & Heq%String.eqb_eq).
    apply split_whitespace_contains in Hw. congruence. }
  unfold is_insult. cbv zeta. rewrite Hfind. clear Hfind. split; [done|].
  intros insult Hin Hempty.
  destruct (List.find _ local_insults) as [reported|] eqn:Hf.
  - exists reported. split; [|done]. by apply find_some in Hf as [? _].
  - eapply find_none in Hf; [|exact Hin]. cbv beta in Hf. rewrite Hempty in Hf.
    by destruct (cleaned message).
Qed.

Lemma is_insult_by_substring_witness :
  let local_insults := ["idiot"; ""]%string in
  In ""%string local_insults
  ∧ ∃ reported, In reported local_insults
                ∧ is_insult local_insults id id "hello" false = Some reported.
Proof.
  intros local_insults.
  assert (H : In ""%string local_insults) by (right; left; reflexivity).
  split; [exact H|].
  exact (proj2 (is_insult_by_substring local_insults id id "hello" false)
               ""%string H eq_refl).
Defined.

(** ** umfrage *)

Lemma umfrage_fields_ok (i : nat) (options : list string) :
  (i + List.length options ≤ 5)%nat →
  umfrage_fields i options = Ok (zip (drop i umfrage_emojis) options).
Proof.
  revert i. induction options as [|opt options IH]; intros i Hlen.
  - cbn [umfrage_fields]. by destruct (drop i umfrage_emojis).
  - cbn [umfrage_fields List.length] in *.
    rewrite (IH (S i)) by lia.
    do 5 (destruct i as [|i]; [reflexivity|]). lia.
Qed.

(** A poll is refused when fewer than two options are given and not empty;
    otherwise its fields are these options in the order given, numbered
    from the first emoji on without a gap, two to five of them, and no
    emoji is looked up out of range. *)
Theorem umfrage_numbers_the_options (option1 : string)
    (option2 option3 option4 option5 : option string) :
  let options :=
    List.filter (λ o, negb (String.eqb o ""))
      (omap id [Some option1; option2; option3; option4; option5]) in
  (List.length options ≤ 5)%nat
  ∧ umfrage option1 option2 option3 option4 option5
    = if (List.length options <? 2)%nat
      then Ok (inl "Bitte gib mindestens zwei Optionen an."%string)
      else Ok (inr (zip umfrage_emojis options)).
Proof.
  intros options.
  assert (Hlen : (List.length options ≤ 5)%nat).
  { subst options.
    etrans; [apply List.filter_length_le|].
    destruct option2, option3, option4, option5; simpl; lia. }
  split; [exact Hlen|]. unfold umfrage. fold options.
  destruct (List.length options <? 2)%nat; [done|].
  by rewrite umfrage_fields_ok by (simpl; lia).
Qed.

(** ** The roles of the ranks *)

Lemma get_finds (roles : list Role) (n : string) (r : Role) :
  In r roles → role_name r = n → ∃ r', get roles n = Some r'.
Proof.
  intros Hin Hn. unfold get.
  destruct (List.find _ roles) as [r'|] eqn:Hf; [by exists r'|].
  eapply find_none in Hf; [|exact Hin]. cbv beta in Hf.
  rewrite Hn, String.eqb_refl in Hf. done.
Qed.

Lemma omap_nothing {A B} (f : A → option B) (l : list A) :
  (∀ x, In x l → f x = None) → omap f l = [].
Proof.
  induction l as [|x l IH]; intros H; [done|]. cbn [omap list_omap].
  rewrite (H x (or_introl eq_refl)). apply IH. intros y Hy. apply H. by right.
Qed.

(** [ensure_rank_roles] asks for no role whose name the guild has, and for
    every rank the role is there or asked for; once the roles asked for
    exist, [update_member_title] finds its target role for every balance. *)
Theorem ensure_rank_roles_completes (RANKS : list RankTier)
    (guild_roles created : list Role) :
  role_name <$> created = fst <$> ensure_rank_roles RANKS guild_roles →
  (∀ call, In call (ensure_rank_roles RANKS guild_roles) →
           ¬ In call.1 (role_name <$> guild_roles))
  ∧ (∀ r, In r RANKS →
          In (rank_role_name (name r) (emoji r)) (role_name <$> guild_roles)
          ∨ In (rank_role_name (name r) (emoji r), color r)
               (ensure_rank_roles RANKS guild_roles))
  ∧ ensure_rank_roles RANKS (guild_roles ++ created) = []
  ∧ (RANKS ≠ [] →
     ∀ honor, ∃ role, target_role RANKS (guild_roles ++ created) honor = Ok (Some role)).
Proof.
  intros Hcreated.
  assert (Hcalls : ∀ call, In call (ensure_rank_roles RANKS guild_roles) ↔
            ∃ r, In r RANKS ∧ call = (rank_role_name (name r) (emoji r), color r)
                 ∧ ¬ In call.1 (role_name <$> guild_roles)).
  { intros call. unfold ensure_rank_roles. cbv zeta.
    rewrite <- list_elem_of_In, list_elem_of_omap. split.
    - intros (r & Hr & Hcall). exists r. split; [by apply list_elem_of_In|].
      destruct (existsb _ _) eqn:He; [done|]. injection Hcall as <-.
      split; [done|]. cbn [fst]. intros Hin.
      assert (existsb (String.eqb (rank_role_name (name r) (emoji r)))
                      (role_name <$> guild_roles) = true); [|congruence].
      apply existsb_exists. eexists. split; [exact Hin|apply String.eqb_refl].
    - intros (r & Hr & -> & Hnot). exists r. split; [by apply list_elem_of_In|].
      destruct (existsb _ _) eqn:He; [|done]. destruct Hnot. cbn [fst].
      apply existsb_exists in He as (n & Hn & ->%String.eqb_eq). done. }
  assert (Hcover : ∀ r, In r RANKS →
            In (rank_role_name (name r) (emoji r)) (role_name <$> guild_roles)
            ∨ In (rank_role_name (name r) (emoji r), color r)
                 (ensure_rank_roles RANKS guild_roles)).
  { intros r Hr.
    destruct (in_dec string_dec (rank_role_name (name r) (emoji r))
                (role_name <$> guild_roles)) as [Hin|Hnot]; [by left|].
    right. apply Hcalls. by exists r. }
  assert (Hall : ∀ r, In r RANKS →
            In (rank_role_name (name r) (emoji r))
               (role_name <$> (guild_roles ++ created))).
  { intros r Hr. rewrite fmap_app, in_app_iff.
    destruct (Hcover r Hr) as [H|H]; [by left|]. right.
    rewrite Hcreated. by apply (in_map fst) in H. }
  split; [intros call (r & _ & _ & Hnot)%Hcalls; exact Hnot|].
  split; [exact Hcover|]. split.
  - unfold ensure_rank_roles. cbv zeta. apply omap_nothing. intros r Hr.
    assert (He : existsb (String.eqb (rank_role_name (name r) (emoji r)))
                         (role_name <$> (guild_roles ++ created)) = true).
    { apply existsb_exists. eexists. split; [by apply Hall|apply String.eqb_refl]. }
    by rewrite He.
  - intros Hne honor. unfold target_role.
    destruct (member_rank RANKS honor) as [[rank_name rank_emoji]|e] eqn:Hrank.
    + assert (Hr : ∃ r, In r RANKS ∧ name r = rank_name ∧ emoji r = rank_emoji).
      { unfold member_rank in Hrank. destruct (List.find _ _) as [r|] eqn:Hf.
        - injection Hrank as <- <-. apply find_some in Hf as [Hin _].
          apply sorted_In in Hin. by exists r.
        - destruct RANKS as [|r0 rest]; [done|]. injection Hrank as <- <-.
          exists r0. split; [by left|done]. }
      destruct Hr as (r & Hr & <- & <-).
      apply Hall in Hr. apply list_elem_of_In, list_elem_of_fmap in Hr as (role & Hn & Hin).
      destruct (get_finds (guild_roles ++ created) (rank_role_name (name r) (emoji r))
                  role) as (role' & ->); [by apply list_elem_of_In|done|].
      by exists role'.
    + unfold member_rank in Hrank. destruct (List.find _ _); [done|].
      by destruct RANKS.
Qed.

Lemma ensure_rank_roles_completes_witness :
  let guild_roles := [mkRole 1 1 "@everyone" false; mkRole 2 1 "o Peasant" false] in
  let created := [mkRole 3 1 "+ Knight" false; mkRole 4 1 "* Lord" false] in
  ensure_rank_roles scenario_ranks guild_roles
  = [("+ Knight", 3447003); ("* Lord", 15844367)]%string
  ∧ role_name <$> created = fst <$> ensure_rank_roles scenario_ranks guild_roles
  ∧ ensure_rank_roles scenario_ranks (guild_roles ++ created) = []
  ∧ target_role scenario_ranks (guild_roles ++ created) 1200
    = Ok (Some (mkRole 3 1 "+ Knight" false)).
Proof.
  intros guild_roles created.
  assert (H : role_name <$> created
              = fst <$> ensure_rank_roles scenario_ranks guild_roles) by reflexivity.
  split; [reflexivity|]. split; [exact H|].
  split; [|reflexivity].
  exact (proj1 (proj2 (proj2 (ensure_rank_roles_completes scenario_ranks guild_roles
                                created H)))).
Defined.
